(** * IoT scanner: the device registry of [IOT-SCANNER-CY/scanner.py]

    A shallow embedding of the background scan cycle ([scan_once]), of the
    read-only summary ([api_summary]) and of the static vulnerability table
    ([VULN_HINTS]), followed by the properties of the registry.

    Conventions of the embedding:
    - the Python dicts [devices] and [port_tally] are finite maps ([gmap]),
      the set [seen_ips] is a [gset]; a finite map records which value a key
      has, not the order in which the keys were inserted, so the statements
      speak of the entries of a dict and never of the order in which it
      lists them;
    - a [datetime] is its POSIX time in microseconds (the resolution of
      [datetime]), an integer; [dt.timestamp() < now.timestamp() - s] is the
      integer comparison [dt < now - s * 1000000] (a double resolves
      present-day timestamps well below the microsecond, so the float
      comparison of line 141 orders them as the integers do);
    - what the [nmap.PortScanner] object answers during one cycle is data of
      the cycle ([cycle]): the code is a function of those answers;
    - every [with lock:] block is one atomic step on the registry. *)

From stdpp Require Import gmap strings list fin_maps sorting.
From Stdlib Require Import ZArith Lia.

Open Scope Z_scope.

(** ** Settings *)

Definition SCAN_INTERVAL_SEC : Z := 15.

(** The candidate ports handed to the port scan of line 104. *)
Definition COMMON_PORTS : list Z := [21; 22; 23; 80; 443; 554; 8080].

(** Microseconds in a second: timestamps are counted in microseconds. *)
Definition MICROS : Z := 1000000.

(** The items of the dict literal [VULN_HINTS], as written. *)
Definition VULN_HINTS_items : list (Z * (string * string)) :=
  [ (21,   ("HIGH",     "FTP (21) — plaintext auth; disable or enforce TLS."));
    (22,   ("INFO",     "SSH (22) — strong password/keys recommended."));
    (23,   ("CRITICAL", "Telnet (23) — unencrypted; disable immediately."));
    (80,   ("MEDIUM",   "HTTP (80) — no TLS; prefer HTTPS."));
    (443,  ("INFO",     "HTTPS (443) — verify cert/TLS settings."));
    (554,  ("MEDIUM",   "RTSP (554) — ensure stream auth/firmware updated."));
    (8080, ("MEDIUM",   "Alt HTTP (8080) — often admin UI; require auth.")) ].

Definition VULN_HINTS : gmap Z (string * string) :=
  list_to_map VULN_HINTS_items.

(** ** Global state *)

(** One value of the [devices] dict. *)
Record device := Device {
  ip : string;
  mac : option string;
  vendor : option string;
  open_ports : list Z;
  vulns : list string;
  last_seen : Z
}.

(** The three globals guarded by [lock]. *)
Record registry := Registry {
  devices : gmap string device;
  device_count_history : list Z;
  network_cidr : string
}.

(** The module-level initial values. *)
Definition initial_registry : registry :=
  Registry ∅ [] "0.0.0.0/0".

(** ** Python helpers *)

(** Truth value of [None] or a string: [if mac], [rec.get("mac")]. *)
Definition truthy (o : option string) : bool :=
  match o with
  | Some s => negb (String.eqb s "")
  | None => false
  end.

(** [l[-n:]] for a positive [n]. *)
Definition slice_last {A} (n : nat) (l : list A) : list A :=
  drop (length l - n) l.

(** [sorted(set(l))] on integers. *)
Definition sorted_set (l : list Z) : list Z :=
  merge_sort Z.le (remove_dups l).

(** ** What the port scanner answers in one cycle *)

(** [nm[host].state()]: a [KeyError], or the state string. *)
Inductive host_state :=
| StateKeyError
| State (s : string).

(** A [.get(...)] chain on the scan result: it raises, or yields [None] or a
    string. *)
Inductive lookup_result :=
| LookupRaised
| Found (v : option string).

(** The per-host port scan of lines 104-108: [nm.scan] raises at once, or the
    two loops visit the entries [(port, meta.get('state'))] in order (up to an
    exception, if one interrupts them). *)
Inductive port_scan :=
| ScanRaised
| Scanned (entries : list (Z * option string)).

(** Everything one iteration of [for host in nm.all_hosts()] reads from the
    scanner object, as the object answers at that point of the loop (the
    port scan of line 104 is run on the same object as the sweep). *)
Record host_probe := HostProbe {
  hp_host : string;
  hp_state : host_state;
  hp_mac : lookup_result;      (* nm[host]['addresses'].get('mac') *)
  hp_vendor : lookup_result;   (* nm[host].get('vendor', {}).get(mac) *)
  hp_ports : port_scan
}.

(** The host-discovery sweep [nm.scan(hosts=local_cidr, arguments='-sn -n')]. *)
Inductive sweep :=
| SweepRaised
| Sweep (hosts : list host_probe).

(** One call of [scan_once]: [get_local_network()], [datetime.now()] and the
    scanner's answers. *)
Record cycle := Cycle {
  cy_cidr : string;
  cy_now : Z;
  cy_sweep : sweep
}.

(** ** The body of the host loop *)

Definition is_up (h : host_probe) : bool :=
  match hp_state h with
  | State s => String.eqb s "up"
  | StateKeyError => false
  end.

(** Lines 93-100: [mac] and [vendor], [None] unless read without exception. *)
Definition probe_mac (h : host_probe) : option string :=
  match hp_mac h with
  | Found m => m
  | LookupRaised => None
  end.

Definition probe_vendor (h : host_probe) : option string :=
  if truthy (probe_mac h) then
    match hp_vendor h with
    | Found v => v
    | LookupRaised => None
    end
  else None.

(** Lines 102-110: the ports appended to [open_ports]. *)
Definition scanned_open (h : host_probe) : list Z :=
  match hp_ports h with
  | ScanRaised => []
  | Scanned entries =>
      (filter (λ e : Z * option string, e.2 = Some "open") entries).*1
  end.

(** Line 111. *)
Definition probe_open_ports (h : host_probe) : list Z :=
  sorted_set (scanned_open h).

(** The f-string of line 117. *)
Definition finding (sev msg : string) : string :=
  String.append "[" (String.append sev (String.append "] " msg)).

(** Lines 113-117. *)
Definition vulns_of (ports : list Z) : list string :=
  foldl (λ acc p,
           match VULN_HINTS !! p with
           | Some (sev, msg) => acc ++ [finding sev msg]
           | None => acc
           end) [] ports.

(** Lines 120-134: the record [rec] the critical section of a live host
    builds, from what [devices.get(host)] holds. *)
Definition merge_record (now : Z) (h : host_probe) (old : option device)
  : device :=
  let mac_ := probe_mac h in
  let vendor_ := probe_vendor h in
  let open_ports_ := probe_open_ports h in
  let vulns_ := vulns_of open_ports_ in
  let rec0 := default (Device (hp_host h) mac_ vendor_ [] [] now) old in
  let rec_mac :=
    if truthy mac_ && negb (truthy (mac rec0)) then mac_ else mac rec0 in
  let rec_vendor :=
    if truthy vendor_ && negb (truthy (vendor rec0))
    then vendor_ else vendor rec0 in
  Device (ip rec0) rec_mac rec_vendor open_ports_ vulns_ now.

(** Lines 119-135: the critical section of one live host. *)
Definition merge_host (now : Z) (h : host_probe) (st : registry) : registry :=
  let host := hp_host h in
  let rec := merge_record now h (devices st !! host) in
  Registry (<[host := rec]> (devices st))
           (device_count_history st) (network_cidr st).

(** One iteration of the loop of line 85 on the locals [seen_ips] and the
    registry: a host that is not up (or unknown to the scanner) is skipped. *)
Definition host_iter (now : Z) (acc : gset string * registry) (h : host_probe)
  : gset string * registry :=
  if is_up h then ({[hp_host h]} ∪ acc.1, merge_host now h acc.2) else acc.

(** ** Eviction and history: the last critical section *)

Definition cutoff (now : Z) : Z := now - SCAN_INTERVAL_SEC * 3 * MICROS.

Definition stale (now : Z) (seen_ips : gset string) (kv : string * device) : Prop :=
  last_seen kv.2 < cutoff now ∧ kv.1 ∉ seen_ips.

Global Instance stale_dec now seen_ips kv : Decision (stale now seen_ips kv).
Proof. unfold stale. apply _. Defined.

Definition stale_ips (now : Z) (seen_ips : gset string)
    (devs : gmap string device) : list string :=
  (filter (stale now seen_ips) (map_to_list devs)).*1.

(** Lines 137-146. *)
Definition finish_cycle (local_cidr : string) (now : Z) (seen_ips : gset string)
    (st : registry) : registry :=
  let devs := foldl (λ d ip_, delete ip_ d) (devices st)
                    (stale_ips now seen_ips (devices st)) in
  let hist := device_count_history st ++ [Z.of_nat (size devs)] in
  let hist := if bool_decide (200 < length hist)%nat
              then slice_last 200 hist else hist in
  Registry devs hist local_cidr.

(** ** scan_once *)

Definition scan_once (c : cycle) (st : registry) : registry :=
  match cy_sweep c with
  | SweepRaised => st
  | Sweep hosts =>
      let '(seen_ips, st1) := foldl (host_iter (cy_now c)) (∅, st) hosts in
      finish_cycle (cy_cidr c) (cy_now c) seen_ips st1
  end.

(** Successive cycles of [background_scanner]. *)
Definition run_cycles (cs : list cycle) (st : registry) : registry :=
  foldl (λ s c, scan_once c s) st cs.

(** ** api_summary *)

(** One element of the ["devices"] list of the response. *)
Record row := Row {
  row_ip : string;
  row_mac : string;
  row_vendor : string;
  row_open_ports : list Z;
  row_vulns : list string;
  row_last_seen : string
}.

(** The JSON object of the response; [rows] is its ["devices"] entry. *)
Record summary := Summary {
  network : string;
  total : Z;
  safe : Z;
  vulnerable : Z;
  history : list Z;
  vuln_ports : gmap Z Z;
  rows : list row
}.

(** [x or "Unknown"]. *)
Definition or_unknown (o : option string) : string :=
  if truthy o then default "Unknown" o else "Unknown".

(** Lines 197-199. *)
Definition tally_port (port_tally : gmap Z Z) (p : Z) : gmap Z Z :=
  if bool_decide (is_Some (VULN_HINTS !! p))
  then <[p := default 0 (port_tally !! p) + 1]> port_tally
  else port_tally.

Section Summary.

(** [dt.strftime("%Y-%m-%d %H:%M:%S")], the rendering of a timestamp. *)
Context (strftime : Z → string).

(** Lines 200-207: the row of one device. *)
Definition row_of (kv : string * device) : row :=
  let rec := kv.2 in
  Row kv.1 (or_unknown (mac rec)) (or_unknown (vendor rec))
      (open_ports rec) (vulns rec) (strftime (last_seen rec)).

(** Lines 194-207, on the locals [vulnerable], [port_tally] and [rows]. *)
Definition summary_iter (acc : Z * gmap Z Z * list row)
    (kv : string * device) : Z * gmap Z Z * list row :=
  let '(vulnerable_, port_tally, rows_) := acc in
  let rec := kv.2 in
  let is_vuln := match vulns rec with [] => 0 | _ :: _ => 1 end in
  (vulnerable_ + is_vuln,
   foldl tally_port port_tally (open_ports rec),
   rows_ ++ [row_of kv]).

(** The body of [api_summary] (reached once [login_required] lets the
    request through), one critical section: the response and the registry
    it leaves. *)
Definition api_summary (st : registry) : summary * registry :=
  let total_ := Z.of_nat (size (devices st)) in
  let '(vulnerable_, port_tally, rows_) :=
    foldl summary_iter (0, ∅, []) (map_to_list (devices st)) in
  let safe_ := total_ - vulnerable_ in
  (Summary (network_cidr st) total_ safe_ vulnerable_
           (slice_last 60 (device_count_history st)) port_tally rows_,
   st).

(** ** The scanner thread and request handlers under [lock] *)

(** An atomic step: a critical section of the scanner thread, or a whole
    [api_summary] request. *)
Inductive action :=
| Locked (f : registry → registry)
| ApiSummary.

(** Runs a schedule; collects the responses in order. *)
Fixpoint run_trace (tr : list action) (st : registry)
  : list summary * registry :=
  match tr with
  | [] => ([], st)
  | Locked f :: tr' => run_trace tr' (f st)
  | ApiSummary :: tr' =>
      let '(s, st') := api_summary st in
      let '(obs, st'') := run_trace tr' st' in
      (s :: obs, st'')
  end.

End Summary.

(** The hosts of a sweep the loop does not skip. *)
Definition live_hosts (hosts : list host_probe) : list host_probe :=
  filter (λ h, is_up h = true) hosts.

(** The final value of the local [seen_ips]. *)
Definition seen_in (hosts : list host_probe) : gset string :=
  list_to_set (hp_host <$> live_hosts hosts).

(** The critical sections one call of [scan_once] executes, in order: one
    per host that is up, then lines 137-146 with the final [seen_ips]. What
    the loop computes outside the lock (lines 86-117) reads no global. *)
Definition scan_sections (c : cycle) : list (registry → registry) :=
  match cy_sweep c with
  | SweepRaised => []
  | Sweep hosts =>
      (merge_host (cy_now c) <$> live_hosts hosts)
      ++ [finish_cycle (cy_cidr c) (cy_now c) (seen_in hosts)]
  end.

(** The schedules of two threads: every merge of their step sequences that
    keeps each thread's order. *)
Inductive interleaving {A} : list A → list A → list A → Prop :=
| interleaving_nil : interleaving [] [] []
| interleaving_left x l r m :
    interleaving l r m → interleaving (x :: l) r (x :: m)
| interleaving_right y l r m :
    interleaving l r m → interleaving l (y :: r) (y :: m).

(** ** Vocabulary of the statements *)

(** The iteration that processed address [a] last, if any. *)
Definition last_probe (a : string) (hosts : list host_probe)
  : option host_probe :=
  last (filter (λ h, hp_host h = a) (live_hosts hosts)).

(** The registry after the critical sections of the hosts [l]. *)
Definition merge_hosts (now : Z) (l : list host_probe) (st : registry)
  : registry :=
  foldl (λ s h, merge_host now h s) st l.

(** The sample a cycle appends: the device count it leaves. *)
Definition sample_of (st : registry) : Z := Z.of_nat (size (devices st)).

(** Devices with a non-empty [vulns] list. *)
Definition vulnerable_devices (devs : gmap string device)
  : list (string * device) :=
  filter (λ kv : string * device, vulns kv.2 ≠ []) (map_to_list devs).

(** Devices whose [open_ports] list has the port [p]. *)
Definition devices_with_port (p : Z) (devs : gmap string device)
  : list (string * device) :=
  filter (λ kv : string * device, p ∈ open_ports kv.2) (map_to_list devs).

(** Port lists as line 111 leaves them: without duplicates. *)
Definition ports_nodup (devs : gmap string device) : Prop :=
  ∀ a d, devs !! a = Some d → NoDup (open_ports d).

(** The finding line 117 appends for one port: none for a port that is not
    in [VULN_HINTS]. *)
Definition finding_of (p : Z) : list string :=
  match VULN_HINTS !! p with
  | Some (sev, msg) => [finding sev msg]
  | None => []
  end.

(** The addresses a cycle saw up: none when its sweep raises. *)
Definition cycle_seen (c : cycle) : gset string :=
  match cy_sweep c with
  | SweepRaised => ∅
  | Sweep hosts => seen_in hosts
  end.

(** Devices with an empty [vulns] list. *)
Definition safe_devices (devs : gmap string device)
  : list (string * device) :=
  filter (λ kv : string * device, vulns kv.2 = []) (map_to_list devs).

(** The critical sections of the scanner thread in a schedule. *)
Definition locked_sections (tr : list action) : list (registry → registry) :=
  omap (λ x, match x with Locked f => Some f | ApiSummary => None end) tr.

(** The registry after the critical sections [fs], run in order. *)
Definition run_sections (fs : list (registry → registry)) (st : registry)
  : registry :=
  foldl (λ s f, f s) st fs.

(** The hosts whose critical sections a cycle runs. *)
Definition cycle_live (c : cycle) : list host_probe :=
  match cy_sweep c with
  | SweepRaised => []
  | Sweep hosts => live_hosts hosts
  end.

(** The same iteration with another outcome of the port scan. *)
Definition with_ports (h : host_probe) (ps : port_scan) : host_probe :=
  HostProbe (hp_host h) (hp_state h) (hp_mac h) (hp_vendor h) ps.

(** The samples the cycles [cs] append, run from [st]: a cycle whose sweep
    raises returns before line 144 and appends none. *)
Fixpoint samples_of (cs : list cycle) (st : registry) : list Z :=
  match cs with
  | [] => []
  | c :: cs' =>
      match cy_sweep c with
      | SweepRaised => samples_of cs' st
      | Sweep _ => sample_of (scan_once c st) :: samples_of cs' (scan_once c st)
      end
  end.

(** ** background_scanner *)

(** One pass of the loop of [background_scanner]: [scan_once] raises before
    its first critical section (lines 76-78, which touch no global) and the
    [except Exception: pass] drops the exception, or it runs the cycle. *)
Inductive iteration :=
| RaisedEarly
| Ran (c : cycle).

Definition background_iteration (it : iteration) (st : registry) : registry :=
  match it with
  | RaisedEarly => st
  | Ran c => scan_once c st
  end.

(** The registry after the passes [its] of the loop. *)
Definition background_scanner (its : list iteration) (st : registry)
  : registry :=
  foldl (λ s it, background_iteration it s) st its.

(** ** Invariants of the registry *)

(** [rec["ip"]] is the key under which [rec] is stored. *)
Definition keys_match (devs : gmap string device) : Prop :=
  ∀ a d, devs !! a = Some d → ip d = a.

(** The port list is strictly ascending. *)
Definition ports_ascending (devs : gmap string device) : Prop :=
  ∀ a d, devs !! a = Some d → StronglySorted Z.lt (open_ports d).

(** The findings are those of the open ports. *)
Definition findings_match (devs : gmap string device) : Prop :=
  ∀ a d, devs !! a = Some d → vulns d = vulns_of (open_ports d).

(** The newest sample is the current device count; without any sample the
    registry is empty. *)
Definition history_tracks_devices (st : registry) : Prop :=
  match last (device_count_history st) with
  | Some n => n = Z.of_nat (size (devices st))
  | None => devices st = ∅
  end.

(** The entry of an address after the critical sections of the probes [l]
    that carry it, from what the registry held. *)
Definition merge_probes (now : Z) (l : list host_probe) (old : option device)
  : option device :=
  foldl (λ o h, Some (merge_record now h o)) old l.

(** A cycle whose sweep succeeds at a time that makes the timestamp of [d]
    stale. *)
Definition outdates (d : device) (c : cycle) : bool :=
  match cy_sweep c with
  | SweepRaised => false
  | Sweep _ => bool_decide (last_seen d < cutoff (cy_now c))
  end.

(** ** get_local_network *)

(** [netifaces.gateways()] as lines 60-63 use it: it raises, it has no
    ['default'] entry, the entry has no [AF_INET], indexing the entry raises,
    or the entry names an interface. *)
Inductive gateways_answer :=
| GatewaysRaised
| NoDefault
| NoInetDefault
| DefaultRaised
| DefaultIface (iface : string).

(** [netifaces.ifaddresses(iface).get(AF_INET, [{}])[0]] as lines 64-66 use
    it: it raises, or it is a dict with or without ['addr'] and ['netmask']. *)
Inductive ifaddresses_answer :=
| IfaddressesRaised
| Addrs (addr netmask : option string).

(** What the operating system and [ipaddress] answer: [ipv4network s] is
    [str(ipaddress.IPv4Network(s, strict=False))], [None] when it raises. *)
Record os_view := OsView {
  gateways : gateways_answer;
  ifaddresses : string → ifaddresses_answer;
  ipv4network : string → option string
}.

Definition FALLBACK_NETWORK : string := "192.168.1.0/24".

(** Lines 58-72. *)
Definition get_local_network (os : os_view) : string :=
  match gateways os with
  | DefaultIface iface =>
      match ifaddresses os iface with
      | Addrs ip_ netmask =>
          if negb (truthy ip_) || negb (truthy netmask) then FALLBACK_NETWORK
          else
            match ipv4network os (String.append (default "" ip_)
                                    (String.append "/" (default "" netmask))) with
            | Some network_ => network_
            | None => FALLBACK_NETWORK
            end
      | IfaddressesRaised => FALLBACK_NETWORK
      end
  | _ => FALLBACK_NETWORK
  end.

(** What one call of [scan_once] reads outside the registry: the operating
    system at line 77, the clock at line 78 and the scanner from line 79. *)
Record pass_input := PassInput {
  pi_os : os_view;
  pi_now : Z;
  pi_sweep : sweep
}.

(** Lines 77-78 fix the range and the time of the cycle. *)
Definition cycle_of (i : pass_input) : cycle :=
  Cycle (get_local_network (pi_os i)) (pi_now i) (pi_sweep i).

Definition swept (i : pass_input) : bool :=
  match pi_sweep i with
  | SweepRaised => false
  | Sweep _ => true
  end.

(** ** The dashboard routes *)

(** What the views read of a request. *)
Record request := Request {
  rq_method : string;
  rq_path : string;
  rq_form : gmap string string;
  rq_args : gmap string string
}.

(** The target of a redirect: [url_for(endpoint)], [url_for(endpoint,
    next=...)], or a URL taken as it is. *)
Inductive location :=
| UrlFor (endpoint : string) (next : option string)
| Url (u : string).

Inductive response :=
| Redirect (to : location)
| LoginPage (error : option string) (username_hint : string)
| DashboardPage
| Json (s : summary).

(** [session.get("authed")] as a truth value; the session is a dict. *)
Definition session_authed (session : gmap string bool) : bool :=
  default false (session !! "authed").

(** The routes of the application. *)
Inductive endpoint :=
| EpRoot
| EpLogin
| EpLogout
| EpDashboard
| EpApiSummary.

Section Routes.

(** The timestamp rendering and the credentials of the environment
    ([IOT_IDS_USER], [IOT_IDS_PASS]). *)
Context (strftime : Z → string) (DASH_USER DASH_PASS : string).

(** Lines 48-55: the wrapper of the protected views. *)
Definition login_required
    (f : gmap string bool → registry → response * gmap string bool * registry)
    (rq : request) (session : gmap string bool) (st : registry)
  : response * gmap string bool * registry :=
  if negb (session_authed session)
  then (Redirect (UrlFor "login" (Some (rq_path rq))), session, st)
  else f session st.

(** Lines 157-161. *)
Definition root (rq : request) (session : gmap string bool) (st : registry)
  : response * gmap string bool * registry :=
  if session_authed session
  then (Redirect (UrlFor "dashboard" None), session, st)
  else (Redirect (UrlFor "login" None), session, st).

(** Lines 163-174. *)
Definition login (rq : request) (session : gmap string bool) (st : registry)
  : response * gmap string bool * registry :=
  if String.eqb (rq_method rq) "POST" then
    let u := default "" (rq_form rq !! "username") in
    let p := default "" (rq_form rq !! "password") in
    if String.eqb u DASH_USER && String.eqb p DASH_PASS then
      let nxt := if truthy (rq_args rq !! "next")
                 then Url (default "" (rq_args rq !! "next"))
                 else UrlFor "dashboard" None in
      (Redirect nxt, <["authed" := true]> session, st)
    else (LoginPage (Some "Invalid credentials") DASH_USER, session, st)
  else (LoginPage None DASH_USER, session, st).

(** Lines 176-179. *)
Definition logout (rq : request) (session : gmap string bool) (st : registry)
  : response * gmap string bool * registry :=
  (Redirect (UrlFor "login" None), ∅, st).

(** Lines 181-184. *)
Definition dashboard : request → gmap string bool → registry
                       → response * gmap string bool * registry :=
  login_required (λ session st, (DashboardPage, session, st)).

(** Lines 186-218, with the wrapper. *)
Definition api_summary_view : request → gmap string bool → registry
                              → response * gmap string bool * registry :=
  login_required (λ session st,
                    let '(s, st') := api_summary strftime st in
                    (Json s, session, st')).

(** The view function of an endpoint. *)
Definition view (ep : endpoint) : request → gmap string bool → registry
                                  → response * gmap string bool * registry :=
  match ep with
  | EpRoot => root
  | EpLogin => login
  | EpLogout => logout
  | EpDashboard => dashboard
  | EpApiSummary => api_summary_view
  end.

(** What happens in the process, seen from one client: a request of the
    client reaches a view, or the scanner thread completes a pass. The
    session a view reads is the one the previous view left (the client sends
    back the cookie it was given last). *)
Inductive event :=
| Req (ep : endpoint) (rq : request)
| Pass (it : iteration).

Definition step (e : event) (state : gmap string bool * registry)
  : gmap string bool * registry :=
  match e with
  | Req ep rq =>
      let '(_, session, st) := view ep rq state.1 state.2 in (session, st)
  | Pass it => (state.1, background_iteration it state.2)
  end.

Definition run_events (es : list event) (state : gmap string bool * registry)
  : gmap string bool * registry :=
  foldl (λ s e, step e s) state es.

End Routes.

(** A response that shows protected content. *)
Definition is_content (r : response) : bool :=
  match r with
  | DashboardPage | Json _ => true
  | _ => false
  end.

(** A request to [login] that the credentials let through. *)
Definition good_login (DASH_USER DASH_PASS : string) (e : event) : bool :=
  match e with
  | Req EpLogin rq =>
      String.eqb (rq_method rq) "POST"
      && String.eqb (default "" (rq_form rq !! "username")) DASH_USER
      && String.eqb (default "" (rq_form rq !! "password")) DASH_PASS
  | _ => false
  end.

Definition is_logout (e : event) : bool :=
  match e with
  | Req EpLogout _ => true
  | _ => false
  end.

(** The passes of the scanner thread among the events. *)
Definition passes_of (es : list event) : list iteration :=
  omap (λ e, match e with Pass it => Some it | Req _ _ => None end) es.

(** The requests of the client among the events. *)
Definition is_request (e : event) : bool :=
  match e with
  | Req _ _ => true
  | Pass _ => false
  end.

Definition requests_of (es : list event) : list event :=
  filter (λ e, is_request e = true) es.

(** ** The port of the dashboard *)

(** One pass of the loop of lines 386-394 at a port: the socket binds, the
    attempt raises [OSError], or it raises something the loop does not
    catch. The ports tried grow, so each is tried once. *)
Inductive bind_result :=
| Bound
| BindOSError
| BindOtherError.

Inductive port_choice :=
| Chosen (port : Z)
| Uncaught (port : Z).

(** Lines 385-394, with a bound on the number of passes. *)
Fixpoint choose_port (fuel : nat) (try_bind : Z → bind_result) (port : Z)
  : option port_choice :=
  match fuel with
  | O => None
  | S fuel' =>
      match try_bind port with
      | Bound => Some (Chosen port)
      | BindOSError => choose_port fuel' try_bind (port + 1)
      | BindOtherError => Some (Uncaught port)
      end
  end.

(** Line 385. *)
Definition FIRST_PORT : Z := 5000.

(** ** Sample data *)

(** A camera with telnet and a web interface, and a quiet host. *)
Definition camera : host_probe :=
  HostProbe "192.168.1.10" (State "up")
            (Found (Some "AA:BB:CC:00:11:22")) (Found (Some "Acme"))
            (Scanned [(80, Some "open"); (23, Some "open");
                      (22, Some "closed"); (80, Some "open")]).

Definition quiet_host : host_probe :=
  HostProbe "192.168.1.20" (State "up") (Found None) LookupRaised (Scanned []).

(** The same camera when its port scan raises. *)
Definition camera_unscanned : host_probe :=
  HostProbe "192.168.1.10" (State "up") (Found None) LookupRaised ScanRaised.

(** The camera with telnet closed, and with no link identity reported. *)
Definition camera_web_only : host_probe :=
  HostProbe "192.168.1.10" (State "up") (Found None) (Found None)
            (Scanned [(23, Some "closed"); (80, Some "open")]).

(** A cycle at second [t] whose sweep finds the hosts [hosts]. *)
Definition cycle_at (t : Z) (hosts : list host_probe) : cycle :=
  Cycle "192.168.1.0/24" (t * MICROS) (Sweep hosts).

(** A cycle at second [t] whose sweep raises. *)
Definition failed_cycle_at (t : Z) : cycle :=
  Cycle "192.168.1.0/24" (t * MICROS) SweepRaised.

(** * Properties *)

(** ** The host loop *)

Lemma foldl_host_iter now hosts seen st :
  foldl (host_iter now) (seen, st) hosts
  = (seen_in hosts ∪ seen, merge_hosts now (live_hosts hosts) st).
Proof.
  unfold seen_in, merge_hosts, live_hosts.
  revert seen st. induction hosts as [|h hosts IH]; intros seen st; simpl.
  - f_equal. set_solver.
  - unfold host_iter at 2. rewrite filter_cons.
    case_decide as Hup.
    + rewrite Hup, IH. simpl. f_equal. set_solver.
    + apply not_true_is_false in Hup. rewrite Hup. apply IH.
Qed.

Lemma scan_once_sweep cidr now hosts st :
  scan_once (Cycle cidr now (Sweep hosts)) st
  = finish_cycle cidr now (seen_in hosts)
      (merge_hosts now (live_hosts hosts) st).
Proof.
  unfold scan_once; simpl. rewrite foldl_host_iter.
  f_equal. set_solver.
Qed.

Lemma scan_once_raised cidr now st :
  scan_once (Cycle cidr now SweepRaised) st = st.
Proof. reflexivity. Qed.

Lemma elem_of_seen_in a hosts :
  a ∈ seen_in hosts ↔ is_Some (last_probe a hosts).
Proof.
  unfold seen_in, last_probe. rewrite elem_of_list_to_set, list_elem_of_fmap.
  split.
  - intros (h & -> & Hin).
    assert (Hf : h ∈ filter (λ h', hp_host h' = hp_host h) (live_hosts hosts))
      by (apply list_elem_of_filter; done).
    destruct (filter _ (live_hosts hosts)) as [|x l] eqn:E using rev_ind.
    + by apply elem_of_nil in Hf.
    + rewrite last_snoc. eauto.
  - intros [h Hh]. apply last_Some_elem_of in Hh.
    apply list_elem_of_filter in Hh as [<- Hin]. eauto.
Qed.

(** ** One critical section of the host loop *)

Lemma merge_record_ports now h old :
  open_ports (merge_record now h old) = probe_open_ports h
  ∧ vulns (merge_record now h old) = vulns_of (probe_open_ports h)
  ∧ last_seen (merge_record now h old) = now.
Proof. done. Qed.

Lemma merge_record_sticky now h d :
  (truthy (mac d) = true → mac (merge_record now h (Some d)) = mac d)
  ∧ (truthy (vendor d) = true → vendor (merge_record now h (Some d)) = vendor d).
Proof.
  unfold merge_record; simpl. split; intros ->; by rewrite andb_false_r.
Qed.

Lemma merge_host_lookup now h st a :
  devices (merge_host now h st) !! a
  = if decide (hp_host h = a)
    then Some (merge_record now h (devices st !! a))
    else devices st !! a.
Proof.
  unfold merge_host; simpl. rewrite lookup_insert.
  case_decide; by subst.
Qed.

Lemma merge_hosts_history now l st :
  device_count_history (merge_hosts now l st) = device_count_history st
  ∧ network_cidr (merge_hosts now l st) = network_cidr st.
Proof.
  unfold merge_hosts. revert st. induction l as [|h l IH]; intros st; [done|].
  simpl. destruct (IH (merge_host now h st)) as [-> ->]. done.
Qed.

Lemma merge_hosts_snoc now l h st :
  merge_hosts now (l ++ [h]) st = merge_host now h (merge_hosts now l st).
Proof. unfold merge_hosts. by rewrite foldl_app. Qed.

(** An address no live host of the list carries keeps its entry. *)
Lemma merge_hosts_lookup_other now l st a :
  filter (λ h, hp_host h = a) l = [] →
  devices (merge_hosts now l st) !! a = devices st !! a.
Proof.
  induction l as [|h l IH] using rev_ind; intros Hf; [done|].
  rewrite filter_app in Hf. apply app_eq_nil in Hf as [Hl Hh].
  rewrite merge_hosts_snoc, merge_host_lookup.
  rewrite filter_cons in Hh. case_decide; [done|]. by apply IH.
Qed.

(** The entry of a live address is built by its last critical section. *)
Lemma merge_hosts_lookup_last now l st a h :
  last (filter (λ h', hp_host h' = a) l) = Some h →
  ∃ old, devices (merge_hosts now l st) !! a = Some (merge_record now h old).
Proof.
  induction l as [|x l IH] using rev_ind; intros Hl; [done|].
  rewrite filter_app, filter_cons in Hl.
  rewrite merge_hosts_snoc, merge_host_lookup.
  case_decide as Hx.
  - rewrite filter_nil, last_snoc in Hl. injection Hl as ->. eauto.
  - rewrite filter_nil, app_nil_r in Hl. by apply IH.
Qed.

(** The host loop never removes an entry and never clears an identity. *)
Lemma merge_hosts_sticky now l st a d :
  devices st !! a = Some d →
  ∃ d', devices (merge_hosts now l st) !! a = Some d'
        ∧ (truthy (mac d) = true → mac d' = mac d)
        ∧ (truthy (vendor d) = true → vendor d' = vendor d).
Proof.
  induction l as [|x l IH] using rev_ind; intros Hd; [by eauto|].
  destruct (IH Hd) as (d1 & H1 & Hm & Hv).
  rewrite merge_hosts_snoc, merge_host_lookup. case_decide.
  - rewrite H1. eexists; split; [done|].
    destruct (merge_record_sticky now x d1) as [Hm' Hv'].
    split; intros Ht.
    + rewrite <- (Hm Ht). apply Hm'. by rewrite (Hm Ht).
    + rewrite <- (Hv Ht). apply Hv'. by rewrite (Hv Ht).
  - eauto.
Qed.

(** ** Eviction *)

Lemma lookup_foldl_delete (l : list string) (m : gmap string device) a :
  foldl (λ d ip_, delete ip_ d) m l !! a
  = if decide (a ∈ l) then None else m !! a.
Proof.
  revert m. induction l as [|x l IH]; intros m; cbn [foldl].
  - case_decide as Hin; [by apply elem_of_nil in Hin | done].
  - rewrite IH.
    destruct (decide (a = x)) as [->|Hne];
      [rewrite lookup_delete_eq | rewrite lookup_delete_ne by done];
      repeat case_decide; try done; exfalso; set_solver.
Qed.

Lemma elem_of_stale_ips now seen (devs : gmap string device) a :
  a ∈ stale_ips now seen devs
  ↔ ∃ d, devs !! a = Some d ∧ stale now seen (a, d).
Proof.
  unfold stale_ips. rewrite list_elem_of_fmap. split.
  - intros ([a' d] & -> & Hin). apply list_elem_of_filter in Hin as [Hs Hin].
    apply elem_of_map_to_list in Hin. eauto.
  - intros (d & Hd & Hs). exists (a, d). split; [done|].
    apply list_elem_of_filter. split; [done|]. by apply elem_of_map_to_list.
Qed.

(** The devices the last critical section leaves. *)
Lemma finish_cycle_lookup cidr now seen st a :
  devices (finish_cycle cidr now seen st) !! a
  = match devices st !! a with
    | Some d => if decide (stale now seen (a, d)) then None else Some d
    | None => None
    end.
Proof.
  unfold finish_cycle; simpl. rewrite lookup_foldl_delete.
  destruct (devices st !! a) as [d|] eqn:Hd.
  - case_decide as Hin.
    + apply elem_of_stale_ips in Hin as (d' & Hd' & Hs).
      assert (d' = d) as -> by congruence. by rewrite decide_True.
    + rewrite decide_False; [done|]. intros Hs. apply Hin.
      apply elem_of_stale_ips. eauto.
  - by case_decide.
Qed.

Lemma slice_last_short {A} n (l : list A) :
  (length l ≤ n)%nat → slice_last n l = l.
Proof.
  intros Hl. unfold slice_last.
  replace (length l - n)%nat with 0%nat by lia. done.
Qed.

Lemma length_slice_last {A} n (l : list A) :
  length (slice_last n l) = Nat.min n (length l).
Proof. unfold slice_last. rewrite length_drop. lia. Qed.

Lemma slice_last_app {A} n (l k : list A) :
  slice_last n (slice_last n l ++ k) = slice_last n (l ++ k).
Proof.
  unfold slice_last at 1 3. rewrite !length_app, length_slice_last.
  unfold slice_last. rewrite !drop_app, drop_drop, length_drop.
  f_equal; f_equal; lia.
Qed.

(** The history the last critical section leaves. *)
Lemma finish_cycle_history cidr now seen st :
  device_count_history (finish_cycle cidr now seen st)
  = slice_last 200
      (device_count_history st
         ++ [sample_of (finish_cycle cidr now seen st)]).
Proof.
  unfold finish_cycle, sample_of; simpl. case_bool_decide as Hl; [done|].
  symmetry. apply slice_last_short. lia.
Qed.

(** An address the sweep did not report: its entry stays as it was, or goes
    when it is stale. *)
Lemma scan_once_lookup_unseen cidr now hosts st a :
  a ∉ seen_in hosts →
  devices (scan_once (Cycle cidr now (Sweep hosts)) st) !! a
  = match devices st !! a with
    | Some d => if decide (last_seen d < cutoff now) then None else Some d
    | None => None
    end.
Proof.
  intros Hns. rewrite scan_once_sweep, finish_cycle_lookup.
  rewrite merge_hosts_lookup_other.
  - destruct (devices st !! a) as [d|]; [|done].
    unfold stale; simpl. repeat case_decide; try done; naive_solver.
  - rewrite elem_of_seen_in in Hns. unfold last_probe in Hns.
    destruct (filter _ (live_hosts hosts)) as [|x l] using rev_ind; [done|].
    exfalso. apply Hns. rewrite last_snoc. eauto.
Qed.

(** An address the sweep reported up: its entry is the record of its last
    critical section. *)
Lemma scan_once_lookup_seen cidr now hosts st a h :
  last_probe a hosts = Some h →
  ∃ old,
    devices (scan_once (Cycle cidr now (Sweep hosts)) st) !! a
    = Some (merge_record now h old).
Proof.
  intros Hl. rewrite scan_once_sweep.
  destruct (merge_hosts_lookup_last now (live_hosts hosts) st a h Hl)
    as [old Hold].
  exists old. rewrite finish_cycle_lookup, Hold.
  rewrite decide_False; [done|].
  unfold stale; simpl. intros [_ Hns]. apply Hns.
  apply elem_of_seen_in. rewrite Hl. eauto.
Qed.

(** An entry the cycle leaves is one it wrote or one it found. *)
Lemma scan_once_lookup_inv cidr now hosts st a d' :
  devices (scan_once (Cycle cidr now (Sweep hosts)) st) !! a = Some d' →
  (a ∈ seen_in hosts ∧ last_seen d' = now)
  ∨ ((a ∉ seen_in hosts) ∧ devices st !! a = Some d'
     ∧ cutoff now ≤ last_seen d').
Proof.
  intros Hd'. destruct (decide (a ∈ seen_in hosts)) as [Hs|Hs].
  - left. split; [done|]. apply elem_of_seen_in in Hs as [h Hh].
    destruct (scan_once_lookup_seen cidr now hosts st a h Hh) as [old Ho].
    rewrite Ho in Hd'. by injection Hd' as <-.
  - right. split; [done|]. rewrite scan_once_lookup_unseen in Hd' by done.
    destruct (devices st !! a) as [d|]; [|done].
    case_decide; [done|]. injection Hd' as <-. split; [done|lia].
Qed.

(** ** The eviction rule *)

(** C2. In a cycle whose sweep succeeds, a device of the registry is removed
    if and only if its [last_seen] is strictly earlier than [now] minus three
    scan intervals and its address is not among the hosts seen in this cycle.
    A host seen in this cycle stays, with [last_seen = now], whatever its
    earlier timestamp; and every device the cycle leaves was seen in this
    cycle or within the last three scan intervals. *)
Theorem eviction_iff_stale_and_unseen cidr now hosts st :
  let st' := scan_once (Cycle cidr now (Sweep hosts)) st in
  (∀ a d, devices st !! a = Some d →
     (devices st' !! a = None
      ↔ last_seen d < now - 3 * (SCAN_INTERVAL_SEC * MICROS)
        ∧ a ∉ seen_in hosts))
  ∧ (∀ a, a ∈ seen_in hosts →
       ∃ d', devices st' !! a = Some d' ∧ last_seen d' = now)
  ∧ (∀ a d', devices st' !! a = Some d' →
       a ∈ seen_in hosts
       ∨ now - 3 * (SCAN_INTERVAL_SEC * MICROS) ≤ last_seen d').
Proof.
  assert (Hc : now - 3 * (SCAN_INTERVAL_SEC * MICROS) = cutoff now)
    by (unfold cutoff; lia).
  rewrite Hc. cbv zeta. split; [|split].
  - intros a d Hd. destruct (decide (a ∈ seen_in hosts)) as [Hs|Hs].
    + pose proof Hs as Hs'. apply elem_of_seen_in in Hs' as [h Hh].
      destruct (scan_once_lookup_seen cidr now hosts st a h Hh) as [old ->].
      split; [done | by intros [_ ?]].
    + rewrite scan_once_lookup_unseen, Hd by done.
      case_decide; split; try done; try (by intros [? _]).
  - intros a Hs. apply elem_of_seen_in in Hs as [h Hh].
    destruct (scan_once_lookup_seen cidr now hosts st a h Hh) as [old ->].
    eauto.
  - intros a d' Hd'.
    destruct (scan_once_lookup_inv cidr now hosts st a d' Hd')
      as [[? _]|(_ & _ & ?)]; [by left | by right].
Qed.

Lemma eviction_iff_stale_and_unseen_witness :
  let st := scan_once (cycle_at 30 [quiet_host])
              (scan_once (cycle_at 0 [camera]) initial_registry) in
  let st' := scan_once (cycle_at 60 []) st in
  devices st' !! "192.168.1.10" = None
  ∧ is_Some (devices st' !! "192.168.1.20").
Proof.
  cbv zeta.
  destruct (eviction_iff_stale_and_unseen "192.168.1.0/24" (60 * MICROS) []
              (scan_once (cycle_at 30 [quiet_host])
                 (scan_once (cycle_at 0 [camera]) initial_registry)))
    as (Hiff & _ & _).
  split.
  - apply (Hiff "192.168.1.10"
             (Device "192.168.1.10" (Some "AA:BB:CC:00:11:22") (Some "Acme")
                     [23; 80] (vulns_of [23; 80]) 0)); [reflexivity|].
    split; [by vm_compute | vm_compute; set_solver].
  - destruct (devices (scan_once (cycle_at 60 []) _) !! "192.168.1.20")
      as [d|] eqn:Hd; [eauto|].
    apply (Hiff "192.168.1.20"
             (Device "192.168.1.20" None None [] [] (30 * MICROS)))
      in Hd as [Hlt _]; [by vm_compute in Hlt | reflexivity].
Defined.

(** ** A sweep that fails *)

(** C3, the claim at a concrete input: had the failed cycle still evicted and
    appended a sample, it would have left what the last critical section
    leaves when no host was seen. One minute after the camera was last seen,
    it does not: the stale camera is still registered and the history has
    not grown. *)
Lemma failed_sweep_skips_eviction_and_sample :
  let st := scan_once (cycle_at 0 [camera]) initial_registry in
  let failed := scan_once (failed_cycle_at 60) st in
  let claimed := finish_cycle (network_cidr st) (60 * MICROS) ∅ st in
  devices failed ≠ devices claimed
  ∧ device_count_history failed ≠ device_count_history claimed
  ∧ is_Some (devices failed !! "192.168.1.10")
  ∧ device_count_history failed = [1]
  ∧ devices claimed = ∅
  ∧ device_count_history claimed = [1; 0].
Proof. vm_compute. repeat split; try discriminate; eauto. Qed.

(** C3, as the code has it. A sweep that fails without raising reports no
    live host: the cycle then leaves the device map as it was except that it
    evicts the devices last seen more than three scan intervals ago, and it
    appends one sample, the resulting device count. A sweep that raises makes
    [scan_once] return at line 82: the device map, the history and the
    network range stay as they were, nothing is evicted and no sample is
    appended. *)
Theorem failed_sweep_evicts_unless_it_raises cidr now hosts st :
  (live_hosts hosts = [] →
   let st' := scan_once (Cycle cidr now (Sweep hosts)) st in
   devices st'
   = filter (λ kv : string * device,
               now - 3 * (SCAN_INTERVAL_SEC * MICROS) ≤ last_seen kv.2)
            (devices st)
   ∧ device_count_history st'
     = slice_last 200 (device_count_history st
                         ++ [Z.of_nat (size (devices st'))])
   ∧ last (device_count_history st') = Some (Z.of_nat (size (devices st'))))
  ∧ scan_once (Cycle cidr now SweepRaised) st = st.
Proof.
  split; [|done]. intros Hlive. cbv zeta.
  assert (Hns : ∀ a, a ∉ seen_in hosts).
  { intros a. unfold seen_in. rewrite Hlive. apply not_elem_of_empty. }
  assert (Hh : device_count_history (scan_once (Cycle cidr now (Sweep hosts)) st)
               = slice_last 200
                   (device_count_history st
                      ++ [Z.of_nat (size (devices
                            (scan_once (Cycle cidr now (Sweep hosts)) st)))])).
  { rewrite scan_once_sweep, Hlive. apply finish_cycle_history. }
  split; [|split; [done|]].
  - apply map_eq. intros a. apply option_eq. intros d.
    rewrite map_lookup_filter_Some. simpl.
    rewrite scan_once_lookup_unseen by apply Hns.
    replace (now - 3 * (SCAN_INTERVAL_SEC * MICROS)) with (cutoff now)
      by (unfold cutoff; lia).
    destruct (devices st !! a) as [d0|]; [|naive_solver].
    case_decide; split; try naive_solver.
    + intros [[= ->] ?]. lia.
    + intros [= ->]. split; [done | lia].
  - rewrite Hh. unfold slice_last. rewrite length_app. simpl.
    rewrite drop_app_le by lia. apply last_snoc.
Qed.

Lemma failed_sweep_evicts_unless_it_raises_witness :
  let st := scan_once (cycle_at 30 [quiet_host])
              (scan_once (cycle_at 0 [camera]) initial_registry) in
  let st' := scan_once (cycle_at 60 []) st in
  devices st'
  = filter (λ kv : string * device,
              60 * MICROS - 3 * (SCAN_INTERVAL_SEC * MICROS) ≤ last_seen kv.2)
           (devices st)
  ∧ device_count_history st' = [1; 2; 1]
  ∧ last (device_count_history st') = Some (Z.of_nat (size (devices st'))).
Proof.
  cbv zeta.
  destruct (failed_sweep_evicts_unless_it_raises "192.168.1.0/24"
              (60 * MICROS) []
              (scan_once (cycle_at 30 [quiet_host])
                 (scan_once (cycle_at 0 [camera]) initial_registry)))
    as [H _].
  destruct (H eq_refl) as (Hd & Hh & Hl).
  split; [exact Hd|]. split; [|exact Hl].
  etrans; [exact Hh | reflexivity].
Defined.

(** ** The staleness window on the clock *)

(** C7, the claim at a concrete input: the camera is seen at second 0 and
    never again, cycles run at seconds 15, 30 and 45. After the cycle at
    second 45 the camera is still registered: its [last_seen] equals the
    cutoff [45 - 3 * 15 = 0] and line 141 asks for strictly earlier. *)
Lemma still_listed_at_45 :
  let st30 := run_cycles [cycle_at 0 [camera]; cycle_at 15 []; cycle_at 30 []]
                         initial_registry in
  let st45 := scan_once (cycle_at 45 []) st30 in
  is_Some (devices st30 !! "192.168.1.10")
  ∧ devices st45 !! "192.168.1.10" ≠ None
  ∧ ¬ (is_Some (devices st30 !! "192.168.1.10")
       ∧ devices st45 !! "192.168.1.10" = None).
Proof.
  vm_compute. split; [eauto|]. split; [discriminate|].
  intros [_ ?]. discriminate.
Qed.

(** C7, as the code has it. With the interval of 15 seconds, a device seen by
    the cycle at second 0 and by no later cycle is still registered after the
    cycles at seconds 30 and 45, and is gone after the cycle at second 60,
    the first whose cutoff lies after second 0. *)
Theorem gone_after_the_fourth_missed_cycle
    st a cidr0 cidr1 cidr2 cidr3 cidr4 hosts0 hosts1 hosts2 hosts3 hosts4 :
  a ∈ seen_in hosts0 →
  a ∉ seen_in hosts1 → a ∉ seen_in hosts2 →
  a ∉ seen_in hosts3 → a ∉ seen_in hosts4 →
  let at_second t := t * MICROS in
  let st0 := scan_once (Cycle cidr0 (at_second 0) (Sweep hosts0)) st in
  let st15 :=
    scan_once (Cycle cidr1 (at_second SCAN_INTERVAL_SEC) (Sweep hosts1)) st0 in
  let st30 := scan_once (Cycle cidr2 (at_second 30) (Sweep hosts2)) st15 in
  let st45 := scan_once (Cycle cidr3 (at_second 45) (Sweep hosts3)) st30 in
  let st60 := scan_once (Cycle cidr4 (at_second 60) (Sweep hosts4)) st45 in
  is_Some (devices st30 !! a)
  ∧ is_Some (devices st45 !! a)
  ∧ devices st60 !! a = None.
Proof.
  intros H0 H1 H2 H3 H4. cbv zeta.
  apply elem_of_seen_in in H0 as [h Hh].
  destruct (scan_once_lookup_seen cidr0 (0 * MICROS) hosts0 st a h Hh)
    as [old Hst0].
  set (st0 := scan_once (Cycle cidr0 (0 * MICROS) (Sweep hosts0)) st) in *.
  assert (Hkeep : ∀ cidr t hosts s d,
             a ∉ seen_in hosts → devices s !! a = Some d →
             last_seen d = 0 → t ≤ 45 →
             devices (scan_once (Cycle cidr (t * MICROS) (Sweep hosts)) s) !! a
             = Some d).
  { intros cidr t hosts s d Hn Hd Hls Ht.
    rewrite scan_once_lookup_unseen, Hd by done.
    rewrite decide_False; [done|]. unfold cutoff, SCAN_INTERVAL_SEC, MICROS.
    lia. }
  set (d := merge_record (0 * MICROS) h old) in *.
  assert (Hls : last_seen d = 0) by done.
  pose proof (Hkeep cidr1 SCAN_INTERVAL_SEC hosts1 st0 d H1 Hst0 Hls
                ltac:(unfold SCAN_INTERVAL_SEC; lia)) as H15.
  pose proof (Hkeep cidr2 30 hosts2 _ d H2 H15 Hls ltac:(lia)) as H30.
  pose proof (Hkeep cidr3 45 hosts3 _ d H3 H30 Hls ltac:(lia)) as H45.
  split; [by rewrite H30|]. split; [by rewrite H45|].
  rewrite scan_once_lookup_unseen, H45 by done.
  rewrite decide_True; [done|]. rewrite Hls. by vm_compute.
Qed.

Lemma gone_after_the_fourth_missed_cycle_witness :
  let a := "192.168.1.10" in
  let run hosts t s := scan_once (Cycle "192.168.1.0/24" (t * MICROS)
                                        (Sweep hosts)) s in
  let st30 := run [] 30 (run [quiet_host] 15
                           (run [camera] 0 initial_registry)) in
  is_Some (devices st30 !! a)
  ∧ is_Some (devices (run [quiet_host] 45 st30) !! a)
  ∧ devices (run [] 60 (run [quiet_host] 45 st30)) !! a = None.
Proof.
  apply (gone_after_the_fourth_missed_cycle initial_registry "192.168.1.10"
           "192.168.1.0/24" "192.168.1.0/24" "192.168.1.0/24"
           "192.168.1.0/24" "192.168.1.0/24"
           [camera] [quiet_host] [] [quiet_host] []);
    vm_compute; set_solver.
Defined.

(** ** The history buffer *)

Lemma scan_once_history cidr now hosts st :
  let st' := scan_once (Cycle cidr now (Sweep hosts)) st in
  device_count_history st'
  = slice_last 200 (device_count_history st ++ [sample_of st']).
Proof.
  cbv zeta. rewrite scan_once_sweep.
  rewrite finish_cycle_history at 1.
  by destruct (merge_hosts_history now (live_hosts hosts) st) as [-> _].
Qed.

Lemma run_cycles_cons c cs st :
  run_cycles (c :: cs) st = run_cycles cs (scan_once c st).
Proof. done. Qed.

Lemma run_cycles_app cs1 cs2 st :
  run_cycles (cs1 ++ cs2) st = run_cycles cs2 (run_cycles cs1 st).
Proof. apply foldl_app. Qed.

Lemma run_cycles_history cs st :
  (length (device_count_history st) ≤ 200)%nat →
  device_count_history (run_cycles cs st)
  = slice_last 200 (device_count_history st ++ samples_of cs st).
Proof.
  revert st. induction cs as [|[cidr now [|hosts]] cs IH]; intros st Hl.
  - simpl. rewrite app_nil_r. symmetry. by apply slice_last_short.
  - by apply IH.
  - rewrite run_cycles_cons. cbn [samples_of cy_sweep].
    set (st' := scan_once (Cycle cidr now (Sweep hosts)) st).
    pose proof (scan_once_history cidr now hosts st) as Hh.
    cbv zeta in Hh. fold st' in Hh.
    rewrite IH.
    + rewrite Hh, slice_last_app, <- app_assoc. done.
    + rewrite Hh, length_slice_last. lia.
Qed.

(** C6. A cycle whose sweep succeeds appends exactly one sample, the device
    count after eviction, and keeps the last 200 samples: the buffer never
    holds more than 200. Over successive cycles the buffer is the last 200 of
    all samples; once 201 samples were appended to an empty history, the
    oldest is gone and the newest is the last one held. *)
Theorem history_keeps_last_200 :
  (∀ cidr now hosts st,
     let st' := scan_once (Cycle cidr now (Sweep hosts)) st in
     let h := device_count_history st in
     let n := Z.of_nat (size (devices st')) in
     (length (device_count_history st') ≤ 200)%nat
     ∧ last (device_count_history st') = Some n
     ∧ ((length h < 200)%nat → device_count_history st' = h ++ [n])
     ∧ (length h = 200%nat → device_count_history st' = drop 1 h ++ [n]))
  ∧ (∀ cs st,
       (length (device_count_history st) ≤ 200)%nat →
       device_count_history (run_cycles cs st)
       = slice_last 200 (device_count_history st ++ samples_of cs st)
       ∧ (length (device_count_history (run_cycles cs st)) ≤ 200)%nat)
  ∧ (∀ cs st,
       device_count_history st = [] →
       length (samples_of cs st) = 201%nat →
       ∃ oldest rest newest,
         samples_of cs st = oldest :: rest
         ∧ device_count_history (run_cycles cs st) = rest
         ∧ length rest = 200%nat
         ∧ last rest = Some newest
         ∧ last (samples_of cs st) = Some newest).
Proof.
  split; [|split].
  - intros cidr now hosts st. cbv zeta.
    pose proof (scan_once_history cidr now hosts st) as Hh. cbv zeta in Hh.
    unfold sample_of in Hh. rewrite Hh. unfold slice_last.
    rewrite length_drop, length_app. simpl. split; [lia|]. split; [|split].
    + rewrite drop_app_le by lia. apply last_snoc.
    + intros Hl. replace (_ + 1 - 200)%nat with 0%nat by lia. done.
    + intros Hl. replace (_ + 1 - 200)%nat with 1%nat by lia.
      rewrite drop_app_le by lia. done.
  - intros cs st Hl. rewrite run_cycles_history by done.
    split; [done|]. rewrite length_slice_last. lia.
  - intros cs st Hnil Hlen. rewrite run_cycles_history by (rewrite Hnil; simpl; lia).
    rewrite Hnil. simpl. unfold slice_last. rewrite Hlen.
    destruct (samples_of cs st) as [|oldest rest] eqn:Hs; [done|].
    simpl in Hlen. assert (Hr : length rest = 200%nat) by lia.
    destruct rest as [|x rest'] using rev_ind; [done|].
    exists oldest, (rest' ++ [x]), x. simpl.
    rewrite last_snoc.
    split; [done|]. split; [done|]. split; [done|]. split; [done|].
    change (oldest :: rest' ++ [x]) with ((oldest :: rest') ++ [x]).
    apply last_snoc.
Qed.

Lemma history_keeps_last_200_witness :
  let cs := replicate 201 (cycle_at 15 [camera]) in
  ∃ oldest rest newest,
    samples_of cs initial_registry = oldest :: rest
    ∧ device_count_history (run_cycles cs initial_registry) = rest
    ∧ length rest = 200%nat
    ∧ last rest = Some newest
    ∧ last (samples_of cs initial_registry) = Some newest.
Proof.
  destruct history_keeps_last_200 as (_ & _ & H).
  apply (H (replicate 201 (cycle_at 15 [camera])) initial_registry);
    vm_compute; reflexivity.
Defined.

(** ** The vulnerability table *)

Lemma VULN_HINTS_keys : VULN_HINTS_items.*1 = [21; 22; 23; 80; 443; 554; 8080].
Proof. reflexivity. Qed.

Lemma VULN_HINTS_keys_NoDup : NoDup VULN_HINTS_items.*1.
Proof. rewrite VULN_HINTS_keys. apply (bool_decide_unpack _). by vm_compute. Qed.

Lemma VULN_HINTS_lookup_Some p v :
  VULN_HINTS !! p = Some v ↔ (p, v) ∈ VULN_HINTS_items.
Proof.
  unfold VULN_HINTS. symmetry.
  apply elem_of_list_to_map, VULN_HINTS_keys_NoDup.
Qed.

Lemma VULN_HINTS_lookup_None p :
  VULN_HINTS !! p = None ↔ p ∉ VULN_HINTS_items.*1.
Proof. unfold VULN_HINTS. symmetry. apply not_elem_of_list_to_map. Qed.

Lemma vulns_of_foldl acc ports :
  foldl (λ acc p,
           match VULN_HINTS !! p with
           | Some (sev, msg) => acc ++ [finding sev msg]
           | None => acc
           end) acc ports
  = acc ++ ports ≫= finding_of.
Proof.
  revert acc. induction ports as [|p ports IH]; intros acc; simpl.
  - by rewrite app_nil_r.
  - rewrite IH. unfold finding_of at 2.
    destruct (VULN_HINTS !! p) as [[sev msg]|]; [|done].
    by rewrite <- app_assoc.
Qed.

(** The findings are the table entries of the ports, in the order of the
    ports. *)
Lemma vulns_of_bind ports : vulns_of ports = ports ≫= finding_of.
Proof. unfold vulns_of. by rewrite vulns_of_foldl. Qed.

Lemma elem_of_vulns_of s ports :
  s ∈ vulns_of ports ↔ ∃ p, p ∈ ports ∧ s ∈ finding_of p.
Proof.
  rewrite vulns_of_bind, list_elem_of_bind. naive_solver.
Qed.

(** Distinct ports of the table have distinct findings. *)
Lemma finding_of_inj s p q : s ∈ finding_of p → s ∈ finding_of q → p = q.
Proof.
  unfold finding_of. intros Hp Hq.
  destruct (VULN_HINTS !! p) as [[sp mp]|] eqn:Ep;
    [|by apply elem_of_nil in Hp].
  destruct (VULN_HINTS !! q) as [[sq mq]|] eqn:Eq;
    [|by apply elem_of_nil in Hq].
  apply list_elem_of_singleton in Hp, Hq. subst s.
  apply VULN_HINTS_lookup_Some in Ep, Eq. unfold VULN_HINTS_items in *.
  repeat match goal with
         | H : _ ∈ _ :: _ |- _ => apply elem_of_cons in H as [H|H]
         | H : _ ∈ [] |- _ => by apply elem_of_nil in H
         end;
    injection Ep as -> -> ->; injection Eq as -> -> ->;
    first [reflexivity | by vm_compute in Hq].
Qed.

(** C9. The classification of a port is the lookup of the port in the static
    table: the same port always has the same result, a port of the table has
    exactly the severity and advisory text written for it (and the one
    finding made of them), and any other port has none. *)
Theorem classification_is_table_lookup :
  (∀ p r1 r2, VULN_HINTS !! p = r1 → VULN_HINTS !! p = r2 → r1 = r2)
  ∧ (∀ p sev msg,
       (p, (sev, msg)) ∈ VULN_HINTS_items →
       VULN_HINTS !! p = Some (sev, msg)
       ∧ vulns_of [p] = [finding sev msg])
  ∧ (∀ p, p ∉ [21; 22; 23; 80; 443; 554; 8080] →
          VULN_HINTS !! p = None ∧ vulns_of [p] = [])
  ∧ (∀ p, is_Some (VULN_HINTS !! p)
          ↔ p ∈ [21; 22; 23; 80; 443; 554; 8080]).
Proof.
  split; [|split; [|split]].
  - congruence.
  - intros p sev msg Hin. apply VULN_HINTS_lookup_Some in Hin.
    split; [done|]. rewrite vulns_of_bind. simpl. unfold finding_of.
    by rewrite Hin.
  - intros p Hp. rewrite <- VULN_HINTS_keys in Hp.
    apply VULN_HINTS_lookup_None in Hp. split; [done|].
    rewrite vulns_of_bind. simpl. unfold finding_of. by rewrite Hp.
  - intros p. rewrite <- VULN_HINTS_keys, list_elem_of_fmap. split.
    + intros [v Hv]. apply VULN_HINTS_lookup_Some in Hv. by exists (p, v).
    + intros ([p' v] & -> & Hin). exists v. by apply VULN_HINTS_lookup_Some.
Qed.

Lemma classification_is_table_lookup_witness :
  VULN_HINTS !! 23
  = Some ("CRITICAL", "Telnet (23) — unencrypted; disable immediately.")
  ∧ vulns_of [23]
    = ["[CRITICAL] Telnet (23) — unencrypted; disable immediately."]
  ∧ VULN_HINTS !! 8443 = None
  ∧ vulns_of [8443] = [].
Proof.
  destruct classification_is_table_lookup as (_ & Hin & Hout & _).
  destruct (Hin 23 "CRITICAL"
              "Telnet (23) — unencrypted; disable immediately.")
    as [H1 H2]; [by vm_compute; set_solver|].
  destruct (Hout 8443) as [H3 H4];
    [by apply (bool_decide_unpack _); vm_compute|].
  done.
Defined.

(** ** Open ports and findings *)

Lemma elem_of_sorted_set p l : p ∈ sorted_set l ↔ p ∈ l.
Proof.
  unfold sorted_set. rewrite merge_sort_Permutation.
  apply elem_of_remove_dups.
Qed.

Lemma NoDup_sorted_set l : NoDup (sorted_set l).
Proof.
  unfold sorted_set. rewrite merge_sort_Permutation.
  apply NoDup_remove_dups.
Qed.

Lemma Sorted_sorted_set l : Sorted Z.le (sorted_set l).
Proof. unfold sorted_set. apply (Sorted_merge_sort Z.le). Qed.

(** C5. A host seen up in a cycle has, after the cycle, the open ports of
    this cycle's scan (sorted, without duplicates) whatever the registry held
    before, and findings computed from these ports alone. A port that is not
    open in this cycle's scan, open before or not, is in neither list. *)
Theorem open_ports_replaced_each_cycle cidr now hosts st a h :
  last_probe a hosts = Some h →
  ∃ d,
    devices (scan_once (Cycle cidr now (Sweep hosts)) st) !! a = Some d
    ∧ open_ports d = sorted_set (scanned_open h)
    ∧ vulns d = vulns_of (open_ports d)
    ∧ (∀ p, p ∈ open_ports d ↔ p ∈ scanned_open h)
    ∧ (∀ p, p ∉ scanned_open h →
            (p ∉ open_ports d) ∧ ∀ s, s ∈ finding_of p → s ∉ vulns d).
Proof.
  intros Hl.
  destruct (scan_once_lookup_seen cidr now hosts st a h Hl) as [old ->].
  eexists. split; [done|].
  destruct (merge_record_ports now h old) as (Hp & Hv & _).
  rewrite Hv, Hp. unfold probe_open_ports.
  split; [done|]. split; [done|].
  split; [intros p; apply elem_of_sorted_set|].
  intros p Hn. split; [by rewrite elem_of_sorted_set|].
  intros s Hs Hin. apply elem_of_vulns_of in Hin as (q & Hq & Hsq).
  assert (p = q) as -> by eauto using finding_of_inj.
  apply Hn. by apply (elem_of_sorted_set q (scanned_open h)).
Qed.

Lemma open_ports_replaced_each_cycle_witness :
  let st1 := scan_once (cycle_at 0 [camera]) initial_registry in
  (∃ d1, devices st1 !! "192.168.1.10" = Some d1 ∧ open_ports d1 = [23; 80])
  ∧ ∃ d,
      devices (scan_once (cycle_at 15 [quiet_host; camera_web_only]) st1)
        !! "192.168.1.10" = Some d
      ∧ open_ports d = [80]
      ∧ vulns d = ["[MEDIUM] HTTP (80) — no TLS; prefer HTTPS."]
      ∧ (23 ∉ open_ports d)
      ∧ "[CRITICAL] Telnet (23) — unencrypted; disable immediately."
        ∉ vulns d.
Proof.
  split; [by vm_compute; eauto|].
  destruct (open_ports_replaced_each_cycle "192.168.1.0/24" (15 * MICROS)
              [quiet_host; camera_web_only]
              (scan_once (cycle_at 0 [camera]) initial_registry)
              "192.168.1.10" camera_web_only)
    as (d & Hd & Hp & Hv & _ & Hgone); [reflexivity|].
  exists d. split; [exact Hd|]. split; [exact Hp|].
  split; [by rewrite Hv, Hp|].
  destruct (Hgone 23) as [H1 H2];
    [by apply (bool_decide_unpack _); vm_compute|].
  split; [exact H1|]. apply H2. vm_compute. left.
Defined.

(** ** Link identity *)

Lemma scan_once_sticky c st a d :
  devices st !! a = Some d →
  (∃ d', devices (scan_once c st) !! a = Some d'
         ∧ (truthy (mac d) = true → mac d' = mac d)
         ∧ (truthy (vendor d) = true → vendor d' = vendor d))
  ∨ (devices (scan_once c st) !! a = None ∧ a ∉ cycle_seen c).
Proof.
  intros Hd. destruct c as [cidr now [|hosts]].
  - left. exists d. by rewrite scan_once_raised.
  - rewrite scan_once_sweep, finish_cycle_lookup.
    destruct (merge_hosts_sticky now (live_hosts hosts) st a d Hd)
      as (d1 & -> & Hm & Hv).
    case_decide as Hs.
    + right. split; [done|]. by destruct Hs as [_ ?].
    + left. eauto.
Qed.

(** C4. While a device is registered, a non-empty MAC or vendor of its entry
    is kept: a cycle that sees the address up leaves the entry in place with
    the same MAC and vendor, whatever identity (empty or not) it reports.
    Over any sequence of cycles the entry keeps them as well, unless some
    cycle that did not see the address evicted the entry. *)
Theorem link_identity_is_sticky st a d :
  devices st !! a = Some d →
  (∀ c, a ∈ cycle_seen c →
        ∃ d', devices (scan_once c st) !! a = Some d'
              ∧ (truthy (mac d) = true → mac d' = mac d)
              ∧ (truthy (vendor d) = true → vendor d' = vendor d))
  ∧ (∀ cs,
       (∃ d', devices (run_cycles cs st) !! a = Some d'
              ∧ (truthy (mac d) = true → mac d' = mac d)
              ∧ (truthy (vendor d) = true → vendor d' = vendor d))
       ∨ (∃ cs1 c cs2,
            cs = cs1 ++ c :: cs2
            ∧ (a ∉ cycle_seen c)
            ∧ devices (run_cycles (cs1 ++ [c]) st) !! a = None)).
Proof.
  intros Hd. split.
  - intros c Hs. destruct (scan_once_sticky c st a d Hd) as [?|[_ ?]]; done.
  - intros cs. revert st d Hd.
    induction cs as [|c cs IH]; intros st d Hd; [left; eauto|].
    destruct (scan_once_sticky c st a d Hd) as [(d1 & H1 & Hm & Hv)|[Hn Hs]].
    + destruct (IH _ _ H1) as [(d' & H' & Hm' & Hv')|(cs1 & c' & cs2 & -> & ? & ?)].
      * left. exists d'. rewrite run_cycles_cons. split; [done|].
        split; intros Ht.
        -- rewrite <- (Hm Ht). apply Hm'. by rewrite (Hm Ht).
        -- rewrite <- (Hv Ht). apply Hv'. by rewrite (Hv Ht).
      * right. exists (c :: cs1), c', cs2. done.
    + right. exists [], c, cs. done.
Qed.

Lemma link_identity_is_sticky_witness :
  let st := scan_once (cycle_at 0 [camera]) initial_registry in
  ∃ d', devices (scan_once (cycle_at 15 [camera_web_only]) st)
          !! "192.168.1.10" = Some d'
        ∧ mac d' = Some "AA:BB:CC:00:11:22"
        ∧ vendor d' = Some "Acme".
Proof.
  destruct (link_identity_is_sticky
              (scan_once (cycle_at 0 [camera]) initial_registry)
              "192.168.1.10"
              (Device "192.168.1.10" (Some "AA:BB:CC:00:11:22") (Some "Acme")
                      [23; 80]
                      (vulns_of [23; 80]) 0))
    as [H _]; [reflexivity|].
  destruct (H (cycle_at 15 [camera_web_only])) as (d' & Hd' & Hm & Hv);
    [vm_compute; set_solver|].
  exists d'. split; [exact Hd'|]. split; [by apply Hm | by apply Hv].
Defined.

(** ** The summary *)

Lemma foldl_summary_iter strftime l v t r :
  foldl (summary_iter strftime) (v, t, r) l
  = (v + Z.of_nat (length (filter (λ kv : string * device, vulns kv.2 ≠ []) l)),
     foldl tally_port t (l ≫= λ kv, open_ports kv.2),
     r ++ (row_of strftime <$> l)).
Proof.
  revert v t r. induction l as [|kv l IH]; intros v t r.
  - simpl. by rewrite Z.add_0_r, app_nil_r.
  - cbn [foldl summary_iter]. rewrite IH, filter_cons.
    cbn [mbind list_bind fmap list_fmap]. rewrite foldl_app, <- app_assoc.
    do 2 f_equal.
    destruct (vulns kv.2) eqn:Hv; case_decide; try done; simpl; lia.
Qed.

Lemma tally_port_lookup t q p :
  tally_port t q !! p
  = if decide (p = q ∧ is_Some (VULN_HINTS !! p))
    then Some (default 0 (t !! p) + 1)
    else t !! p.
Proof.
  unfold tally_port. case_bool_decide as Hq.
  - rewrite lookup_insert. repeat case_decide; naive_solver.
  - case_decide as Hp; [|done]. destruct Hp as [-> ?]. done.
Qed.

Lemma filter_eq_not_elem (p : Z) ports :
  p ∉ ports → filter (λ q, q = p) ports = [].
Proof.
  induction ports as [|q ports IH]; intros Hn; [done|].
  rewrite filter_cons, decide_False by (intros ->; apply Hn; left).
  apply IH. intros ?. apply Hn. by right.
Qed.

Lemma foldl_tally_port_lookup ports t p :
  foldl tally_port t ports !! p
  = if decide (is_Some (VULN_HINTS !! p) ∧ p ∈ ports)
    then Some (default 0 (t !! p)
               + Z.of_nat (length (filter (λ q, q = p) ports)))
    else t !! p.
Proof.
  revert t. induction ports as [|q ports IH]; intros t.
  - simpl. case_decide as H; [|done]. destruct H as [_ H].
    by apply elem_of_nil in H.
  - cbn [foldl]. rewrite IH, tally_port_lookup, filter_cons.
    destruct (decide (q = p)) as [->|Hne].
    + destruct (decide (is_Some (VULN_HINTS !! p))) as [Hp|Hp].
      * rewrite (decide_True (P := p = p ∧ _)) by done.
        rewrite (decide_True (P := _ ∧ p ∈ p :: ports))
          by (split; [done | left]).
        destruct (decide (p ∈ ports)) as [Hin|Hin].
        -- rewrite decide_True by done. f_equal. simpl. lia.
        -- rewrite decide_False by naive_solver.
           rewrite filter_eq_not_elem by done. f_equal.
      * rewrite (decide_False (P := p = p ∧ _)) by naive_solver.
        rewrite !decide_False by naive_solver. done.
    + rewrite (decide_False (P := p = q ∧ _)) by naive_solver.
      destruct (decide (is_Some (VULN_HINTS !! p) ∧ p ∈ ports)) as [Hin|Hin].
      * rewrite decide_True; [done|]. split; [apply Hin | right; apply Hin].
      * rewrite decide_False; [done|]. intros [? Hc]. apply Hin.
        split; [done|]. apply elem_of_cons in Hc as [->|?]; done.
Qed.

(** Without duplicates in the port lists, the occurrences of a port are the
    devices that have it open. *)
Lemma count_port_devices p (l : list (string * device)) :
  (∀ kv, kv ∈ l → NoDup (open_ports kv.2)) →
  length (filter (λ q, q = p) (l ≫= λ kv, open_ports kv.2))
  = length (filter (λ kv : string * device, p ∈ open_ports kv.2) l).
Proof.
  induction l as [|kv l IH]; intros Hnd; [done|].
  cbn [mbind list_bind]. rewrite filter_app, length_app, filter_cons.
  change (mbind (λ kv0 : string * device, open_ports kv0.2) l)
    with (l ≫= λ kv0 : string * device, open_ports kv0.2) in *.
  rewrite IH by (intros ? ?; apply Hnd; by right).
  assert (Hkv : NoDup (open_ports kv.2)) by (apply Hnd; left).
  assert (Hone : ∀ ports, NoDup ports →
            length (filter (λ q, q = p) ports)
            = if decide (p ∈ ports) then 1%nat else 0%nat).
  { clear. induction 1 as [|q ports Hq Hnd IH]; [done|].
    rewrite filter_cons.
    destruct (decide (q = p)) as [->|Hne].
    - rewrite filter_eq_not_elem by done.
      by rewrite (decide_True (P := p ∈ p :: ports)) by left.
    - rewrite IH. repeat case_decide; try done; exfalso; set_solver. }
  rewrite (Hone _ Hkv). case_decide; simpl; lia.
Qed.

Lemma elem_of_bind_ports p (l : list (string * device)) :
  p ∈ l ≫= (λ kv, open_ports kv.2)
  ↔ filter (λ kv : string * device, p ∈ open_ports kv.2) l ≠ [].
Proof.
  rewrite list_elem_of_bind. split.
  - intros (kv & Hp & Hkv) Hnil.
    assert (Hin : kv ∈ filter (λ kv : string * device, p ∈ open_ports kv.2) l)
      by (by apply list_elem_of_filter).
    rewrite Hnil in Hin. by apply elem_of_nil in Hin.
  - intros Hne.
    destruct (filter (λ kv : string * device, p ∈ open_ports kv.2) l)
      as [|kv k] eqn:E; [done|].
    assert (Hin : kv ∈ filter (λ kv : string * device, p ∈ open_ports kv.2) l)
      by (rewrite E; left).
    apply list_elem_of_filter in Hin as [? ?]. eauto.
Qed.

Lemma length_filter_split {A} (P : A → Prop) `{∀ x, Decision (P x)}
    (l : list A) :
  (length (filter P l) + length (filter (λ x, ¬ P x) l))%nat = length l.
Proof. rewrite <- length_app. by rewrite filter_app_complement. Qed.

(** A request leaves the registry as it found it. *)
Lemma api_summary_registry strftime st : (api_summary strftime st).2 = st.
Proof.
  unfold api_summary.
  by destruct (foldl (summary_iter strftime) _ _) as [[? ?] ?].
Qed.

Lemma run_trace_registry strftime tr st :
  (run_trace strftime tr st).2 = run_sections (locked_sections tr) st.
Proof.
  revert st. induction tr as [|[f|] tr IH]; intros st; [done|apply IH|].
  cbn [run_trace locked_sections omap list_omap].
  pose proof (api_summary_registry strftime st) as Hst.
  destruct (api_summary strftime st) as [s st']. simpl in Hst. subst st'.
  specialize (IH st). destruct (run_trace strftime tr st) as [obs st''].
  exact IH.
Qed.

Lemma api_summary_unfold strftime st :
  (api_summary strftime st).1
  = let l := map_to_list (devices st) in
    let total_ := Z.of_nat (size (devices st)) in
    let vulnerable_ := Z.of_nat (length (vulnerable_devices (devices st))) in
    Summary (network_cidr st) total_ (total_ - vulnerable_) vulnerable_
            (slice_last 60 (device_count_history st))
            (foldl tally_port ∅ (l ≫= λ kv, open_ports kv.2))
            (row_of strftime <$> l).
Proof.
  unfold api_summary. rewrite foldl_summary_iter. done.
Qed.

Lemma vulnerable_plus_safe devs :
  (length (vulnerable_devices devs) + length (safe_devices devs))%nat
  = size devs.
Proof.
  unfold vulnerable_devices, safe_devices.
  rewrite <- length_map_to_list.
  rewrite <- (length_filter_split
                (λ kv : string * device, vulns kv.2 ≠ []) (map_to_list devs)).
  do 2 f_equal. apply list_filter_iff. intros kv.
  destruct (vulns kv.2); naive_solver.
Qed.

(** The port lists the scanner writes have no duplicates. *)
Lemma scan_once_ports_nodup c st :
  ports_nodup (devices st) → ports_nodup (devices (scan_once c st)).
Proof.
  intros Hnd. destruct c as [cidr now [|hosts]]; [done|].
  intros a d' Hd'.
  destruct (scan_once_lookup_inv cidr now hosts st a d' Hd')
    as [[Hs _]|(_ & Hd & _)]; [|by eapply Hnd].
  apply elem_of_seen_in in Hs as [h Hh].
  destruct (scan_once_lookup_seen cidr now hosts st a h Hh) as [old Ho].
  rewrite Ho in Hd'. injection Hd' as <-. apply NoDup_sorted_set.
Qed.

Lemma run_cycles_ports_nodup cs st :
  ports_nodup (devices st) → ports_nodup (devices (run_cycles cs st)).
Proof.
  revert st. induction cs as [|c cs IH]; intros st Hnd; [done|].
  rewrite run_cycles_cons. by apply IH, scan_once_ports_nodup.
Qed.

Lemma initial_ports_nodup : ports_nodup (devices initial_registry).
Proof. intros a d Hd. simpl in Hd. by rewrite lookup_empty in Hd. Qed.

(** C8. The summary of a registry counts as vulnerable the devices whose
    [vulns] list is non-empty, and as safe the others: safe is total minus
    vulnerable. Its port tally has an entry exactly for the ports of
    [VULN_HINTS] that some device has open, with the number of such devices.
    Its history is the last 60 samples at most. The request leaves the
    registry as it found it, also within any schedule. *)
Theorem summary_of_snapshot strftime st :
  ports_nodup (devices st) →
  let s := (api_summary strftime st).1 in
  (api_summary strftime st).2 = st
  ∧ (∀ tr, (run_trace strftime tr st).2
           = run_sections (locked_sections tr) st)
  ∧ total s = Z.of_nat (size (devices st))
  ∧ vulnerable s = Z.of_nat (length (vulnerable_devices (devices st)))
  ∧ safe s = total s - vulnerable s
  ∧ safe s = Z.of_nat (length (safe_devices (devices st)))
  ∧ (∀ p, vuln_ports s !! p
          = if decide (is_Some (VULN_HINTS !! p)
                       ∧ devices_with_port p (devices st) ≠ [])
            then Some (Z.of_nat (length (devices_with_port p (devices st))))
            else None)
  ∧ history s = slice_last 60 (device_count_history st)
  ∧ (length (history s) ≤ 60)%nat
  ∧ history s `suffix_of` device_count_history st.
Proof.
  intros Hnd. cbv zeta. rewrite api_summary_unfold. cbv zeta. simpl.
  split; [apply api_summary_registry|].
  split; [intros tr; apply run_trace_registry|].
  split; [done|]. split; [done|]. split; [done|].
  split; [pose proof (vulnerable_plus_safe (devices st)); lia|].
  split; [|split; [done|split]].
  - intros p. rewrite foldl_tally_port_lookup, lookup_empty. simpl.
    unfold devices_with_port. rewrite count_port_devices.
    + pose proof (elem_of_bind_ports p (map_to_list (devices st))) as Hb.
      repeat case_decide; try done; naive_solver.
    + intros [a d] Hin. apply elem_of_map_to_list in Hin. by eapply Hnd.
  - rewrite length_slice_last. lia.
  - apply suffix_drop.
Qed.

Lemma summary_of_snapshot_witness :
  let st := scan_once (cycle_at 0 [camera; quiet_host]) initial_registry in
  let s := (api_summary (λ _, "2024-01-01 00:00:00") st).1 in
  total s = 2 ∧ vulnerable s = 1 ∧ safe s = 1
  ∧ vuln_ports s !! 23 = Some 1
  ∧ vuln_ports s !! 22 = None
  ∧ history s = [2].
Proof.
  pose proof (summary_of_snapshot (λ _, "2024-01-01 00:00:00")
                (scan_once (cycle_at 0 [camera; quiet_host]) initial_registry)
                (scan_once_ports_nodup _ _ initial_ports_nodup)) as H.
  cbv zeta in H. destruct H as (_ & _ & Ht & Hv & Hs & _ & Hp & Hh & _).
  cbv zeta. rewrite Hs, Ht, Hv, (Hp 23), (Hp 22), Hh.
  repeat split; vm_compute; reflexivity.
Defined.

(** ** A port scan that raises *)

Lemma scanned_open_closed entries :
  (∀ e : Z * option string, e ∈ entries → e.2 ≠ Some "open") →
  (filter (λ e : Z * option string, e.2 = Some "open") entries).*1 = [].
Proof.
  intros Hc. induction entries as [|e entries IH]; [done|].
  rewrite filter_cons, decide_False by (apply Hc; left).
  apply IH. intros e' ?. apply Hc. by right.
Qed.

(** A scan that raises and a scan that finds nothing open leave the loop in
    the same state. *)
Lemma host_iter_unscanned now acc h entries :
  hp_ports h = ScanRaised →
  (∀ e : Z * option string, e ∈ entries → e.2 ≠ Some "open") →
  host_iter now acc (with_ports h (Scanned entries)) = host_iter now acc h.
Proof.
  intros Hr Hc. unfold host_iter, merge_host, merge_record.
  unfold probe_open_ports, scanned_open, probe_vendor, probe_mac, is_up.
  rewrite Hr. simpl. by rewrite scanned_open_closed.
Qed.

(** C10. When a host is up and its port scan raises, the cycle still writes
    its entry: [last_seen] is [now], [open_ports] and [vulns] are empty. The
    summary lists the host with these empty lists and counts it among the
    safe devices, not the vulnerable ones. The cycle leaves the very registry
    it would leave had the scan completed and found no port open. *)
Theorem unscanned_host_is_listed_safe strftime cidr now hosts st a h :
  last_probe a hosts = Some h →
  hp_ports h = ScanRaised →
  let st' := scan_once (Cycle cidr now (Sweep hosts)) st in
  let s := (api_summary strftime st').1 in
  (∃ d, devices st' !! a = Some d
        ∧ last_seen d = now ∧ open_ports d = [] ∧ vulns d = []
        ∧ (a, d) ∈ safe_devices (devices st')
        ∧ ((a, d) ∉ vulnerable_devices (devices st'))
        ∧ row_of strftime (a, d) ∈ rows s)
  ∧ safe s = Z.of_nat (length (safe_devices (devices st')))
  ∧ vulnerable s = Z.of_nat (length (vulnerable_devices (devices st')))
  ∧ (∀ l1 l2 entries,
       hosts = l1 ++ h :: l2 →
       (∀ e : Z * option string, e ∈ entries → e.2 ≠ Some "open") →
       scan_once
         (Cycle cidr now (Sweep (l1 ++ with_ports h (Scanned entries) :: l2)))
         st
       = st').
Proof.
  intros Hl Hr. cbv zeta. rewrite api_summary_unfold. cbv zeta.
  cbn [rows safe vulnerable].
  split; [|split; [|split]].
  - destruct (scan_once_lookup_seen cidr now hosts st a h Hl) as [old Ho].
    exists (merge_record now h old). split; [done|].
    assert (Hp : open_ports (merge_record now h old) = []).
    { unfold merge_record, probe_open_ports, scanned_open. by rewrite Hr. }
    assert (Hv : vulns (merge_record now h old) = []).
    { unfold merge_record, probe_open_ports, scanned_open. by rewrite Hr. }
    apply elem_of_map_to_list in Ho.
    split; [done|]. split; [done|]. split; [done|].
    split; [by apply list_elem_of_filter|].
    split; [|by apply list_elem_of_fmap_2].
    intros Hin. apply list_elem_of_filter in Hin as [Hne _]. by apply Hne.
  - pose proof (vulnerable_plus_safe
                  (devices (scan_once (Cycle cidr now (Sweep hosts)) st))).
    lia.
  - done.
  - intros l1 l2 entries -> Hc. unfold scan_once. cbn [cy_sweep cy_now cy_cidr].
    rewrite !foldl_app. cbn [foldl].
    by rewrite host_iter_unscanned.
Qed.

Lemma unscanned_host_is_listed_safe_witness :
  let st' := scan_once (cycle_at 15 [quiet_host; camera_unscanned])
                       (scan_once (cycle_at 0 [camera]) initial_registry) in
  ∃ d, devices st' !! "192.168.1.10" = Some d
       ∧ last_seen d = 15 * MICROS ∧ open_ports d = [] ∧ vulns d = []
       ∧ mac d = Some "AA:BB:CC:00:11:22".
Proof.
  destruct (unscanned_host_is_listed_safe (λ _, "2024-01-01 00:00:15")
              "192.168.1.0/24" (15 * MICROS) [quiet_host; camera_unscanned]
              (scan_once (cycle_at 0 [camera]) initial_registry)
              "192.168.1.10" camera_unscanned eq_refl eq_refl)
    as [(d & Hd & Hs & Hp & Hv & _) _].
  exists d. split; [exact Hd|]. split; [exact Hs|].
  split; [exact Hp|]. split; [exact Hv|].
  change (devices (scan_once (cycle_at 15 [quiet_host; camera_unscanned])
            (scan_once (cycle_at 0 [camera]) initial_registry))
            !! "192.168.1.10" = Some d) in Hd.
  vm_compute in Hd. injection Hd as <-. reflexivity.
Defined.

(** ** Requests during a cycle *)

Lemma run_sections_merge now l st :
  run_sections (merge_host now <$> l) st = merge_hosts now l st.
Proof.
  unfold run_sections, merge_hosts. revert st.
  induction l as [|h l IH]; intros st; [done|]. apply IH.
Qed.

(** The sequential [scan_once] is its critical sections run in order. *)
Lemma run_sections_scan c st :
  run_sections (scan_sections c) st = scan_once c st.
Proof.
  destruct c as [cidr now [|hosts]]; [done|].
  rewrite scan_once_sweep. unfold scan_sections. cbn [cy_sweep cy_now cy_cidr].
  unfold run_sections. rewrite foldl_app. cbn [foldl].
  fold (run_sections (merge_host now <$> live_hosts hosts) st).
  by rewrite run_sections_merge.
Qed.

(** Every response of a schedule is the summary of the registry after some
    of the scanner's critical sections; there is one response per request. *)
Lemma run_trace_observations strftime tr fs n st :
  interleaving (Locked <$> fs) (replicate n ApiSummary) tr →
  length (run_trace strftime tr st).1 = n
  ∧ Forall (λ s, ∃ k, s = (api_summary strftime
                             (run_sections (take k fs) st)).1)
           (run_trace strftime tr st).1.
Proof.
  revert fs n st. induction tr as [|x tr IH]; intros fs n st Hi.
  - inversion Hi as [Hf Hn| |]. destruct n; [|done]. by split.
  - inversion Hi as [|y l r m Hi' Hf Hn|y l r m Hi' Hf Hn]; subst.
    + destruct fs as [|f fs]; [done|]. injection Hf as -> ->.
      cbn [run_trace]. destruct (IH fs n (f st) Hi') as [Hlen Hall].
      split; [done|]. eapply Forall_impl; [exact Hall|].
      intros s [k ->]. by exists (S k).
    + destruct n as [|n]; [done|]. injection Hn as -> ->.
      cbn [run_trace].
      pose proof (api_summary_registry strftime st) as Hst.
      destruct (api_summary strftime st) as [s st'] eqn:Hs.
      simpl in Hst. subst st'.
      destruct (IH fs n st Hi') as [Hlen Hall].
      destruct (run_trace strftime tr st) as [obs st''].
      simpl in *. split; [by rewrite Hlen|].
      constructor; [|done]. exists 0%nat.
      unfold run_sections. simpl. by rewrite Hs.
Qed.

(** C1, the claim at a concrete input: a request served between the critical
    section of the camera and the last one gets a summary that lists the
    camera while the history is still empty; it is neither the summary of the
    registry before the cycle nor the one after it. *)
Lemma request_sees_cycle_in_progress :
  let c := cycle_at 0 [camera] in
  let strftime := λ _ : Z, "1970-01-01 00:00:00" in
  let before := (api_summary strftime initial_registry).1 in
  let after := (api_summary strftime (scan_once c initial_registry)).1 in
  ∃ tr s,
    interleaving (Locked <$> scan_sections c) [ApiSummary] tr
    ∧ (run_trace strftime tr initial_registry).1 = [s]
    ∧ s ≠ before ∧ s ≠ after
    ∧ total s = 1 ∧ history s = []
    ∧ total before = 0 ∧ history after = [1].
Proof.
  cbv zeta.
  exists [Locked (merge_host (0 * MICROS) camera); ApiSummary;
          Locked (finish_cycle "192.168.1.0/24" (0 * MICROS)
                    (seen_in [camera]))].
  eexists. split; [|split; [reflexivity|]].
  - apply interleaving_left, interleaving_right, interleaving_left.
    apply interleaving_nil.
  - vm_compute. repeat split; discriminate.
Qed.

(** C1, as the code has it. Each host's update is a critical section of its
    own, and eviction with the history append is one more. A request served
    during a cycle therefore sees the registry after the whole cycle, or the
    registry before the cycle with the updates of the first [k] live hosts of
    the sweep applied, for some [k]: eviction and the history append are
    never seen one without the other. The requests do not change what the
    cycle leaves. *)
Theorem request_sees_prefix_of_host_updates strftime c n tr st :
  interleaving (Locked <$> scan_sections c) (replicate n ApiSummary) tr →
  (run_trace strftime tr st).2 = scan_once c st
  ∧ length (run_trace strftime tr st).1 = n
  ∧ Forall
      (λ s, s = (api_summary strftime (scan_once c st)).1
            ∨ ∃ k, (k ≤ length (cycle_live c))%nat
                   ∧ s = (api_summary strftime
                            (merge_hosts (cy_now c) (take k (cycle_live c)) st)).1)
      (run_trace strftime tr st).1.
Proof.
  intros Hi. split; [|split].
  - rewrite run_trace_registry, <- run_sections_scan. f_equal.
    clear st. remember (Locked <$> scan_sections c) as ws eqn:Hws.
    remember (replicate n ApiSummary) as rs eqn:Hrs.
    revert n Hrs. generalize dependent (scan_sections c).
    induction Hi as [|x l r m Hi IH|y l r m Hi IH]; intros fs Hws n Hrs.
    + by destruct fs.
    + destruct fs as [|f fs]; [done|]. injection Hws as -> ->.
      cbn [locked_sections omap list_omap]. f_equal. by eapply IH.
    + destruct n as [|n]; [done|]. injection Hrs as -> ->.
      cbn [locked_sections omap list_omap]. by eapply IH.
  - by apply (run_trace_observations strftime tr (scan_sections c) n st).
  - destruct (run_trace_observations strftime tr (scan_sections c) n st Hi)
      as [_ Hall].
    eapply Forall_impl; [exact Hall|]. intros s [k ->].
    destruct c as [cidr now [|hosts]].
    + left. destruct k; done.
    + cbn [cycle_live cy_sweep cy_now].
      destruct (decide (k ≤ length (live_hosts hosts))%nat) as [Hk|Hk].
      * right. exists k. split; [done|].
        unfold scan_sections. cbn [cy_sweep cy_now cy_cidr].
        rewrite take_app_le by (rewrite length_fmap; lia).
        by rewrite <- fmap_take, run_sections_merge.
      * left. rewrite take_ge; [by rewrite run_sections_scan|].
        unfold scan_sections. cbn [cy_sweep cy_now cy_cidr].
        rewrite length_app, length_fmap. simpl. lia.
Qed.

Lemma request_sees_prefix_of_host_updates_witness :
  let c := cycle_at 0 [camera] in
  let strftime := λ _ : Z, "1970-01-01 00:00:00" in
  let tr := [Locked (merge_host (0 * MICROS) camera); ApiSummary;
             Locked (finish_cycle "192.168.1.0/24" (0 * MICROS)
                       (seen_in [camera]))] in
  (run_trace strftime tr initial_registry).2 = scan_once c initial_registry
  ∧ length (run_trace strftime tr initial_registry).1 = 1%nat.
Proof.
  cbv zeta.
  destruct (request_sees_prefix_of_host_updates
              (λ _ : Z, "1970-01-01 00:00:00") (cycle_at 0 [camera]) 1
              [Locked (merge_host (0 * MICROS) camera); ApiSummary;
               Locked (finish_cycle "192.168.1.0/24" (0 * MICROS)
                         (seen_in [camera]))]
              initial_registry) as (H1 & H2 & _).
  - apply interleaving_left, interleaving_right, interleaving_left.
    apply interleaving_nil.
  - split; [exact H1 | exact H2].
Defined.

(** * Further properties *)

(** ** What every registry of the scanner thread satisfies *)

Lemma background_scanner_snoc its it st :
  background_scanner (its ++ [it]) st
  = background_iteration it (background_scanner its st).
Proof. unfold background_scanner. by rewrite foldl_app. Qed.

(** A property of the entries that every critical section of a host
    establishes for the record it writes is kept by a whole cycle. *)
Lemma scan_once_entries (P : string → device → Prop) c st :
  (∀ now h old,
     (∀ d, old = Some d → P (hp_host h) d) →
     P (hp_host h) (merge_record now h old)) →
  (∀ a d, devices st !! a = Some d → P a d) →
  ∀ a d, devices (scan_once c st) !! a = Some d → P a d.
Proof.
  intros Hrec Hst. destruct c as [cidr now [|hosts]]; [done|].
  rewrite scan_once_sweep. intros a d. rewrite finish_cycle_lookup.
  assert (Hm : ∀ l a d, devices (merge_hosts now l st) !! a = Some d → P a d).
  { induction l as [|h l IH] using rev_ind; [done|].
    intros a' d'. rewrite merge_hosts_snoc, merge_host_lookup.
    case_decide as Ha; [|by apply IH]. subst a'. intros [= <-].
    apply Hrec. intros d0 Hd0. by apply IH. }
  destruct (devices (merge_hosts now (live_hosts hosts) st) !! a) as [d1|] eqn:E;
    [|done].
  case_decide; [done|]. intros [= <-]. by eapply Hm.
Qed.

Lemma background_scanner_entries (P : string → device → Prop) its st :
  (∀ now h old,
     (∀ d, old = Some d → P (hp_host h) d) →
     P (hp_host h) (merge_record now h old)) →
  (∀ a d, devices st !! a = Some d → P a d) →
  ∀ a d, devices (background_scanner its st) !! a = Some d → P a d.
Proof.
  intros Hrec Hst. induction its as [|it its IH] using rev_ind; [done|].
  rewrite background_scanner_snoc. destruct it as [|c]; [done|].
  by apply scan_once_entries.
Qed.

Lemma StronglySorted_lt_sorted_set l : StronglySorted Z.lt (sorted_set l).
Proof.
  pose proof (NoDup_sorted_set l) as Hnd.
  assert (Hs : StronglySorted Z.le (sorted_set l))
    by (unfold sorted_set; apply (StronglySorted_merge_sort Z.le)).
  induction Hs as [|x k Hs IH Hall]; [constructor|].
  apply NoDup_cons in Hnd as [Hx Hnd]. constructor; [by apply IH|].
  apply Forall_forall. intros y Hy.
  pose proof (proj1 (Forall_forall _ _) Hall y Hy) as Hle.
  assert (x ≠ y) by (intros ->; done). lia.
Qed.

(** X1. In every registry the scanner thread produces, each entry is stored
    under its own address: the [ip] field of the record equals its key. *)
Theorem registry_keys_are_ips its :
  keys_match (devices (background_scanner its initial_registry)).
Proof.
  intros a d. revert a d.
  apply (background_scanner_entries (λ a d, ip d = a)).
  - intros now h [d|] Hold; simpl; [by apply Hold | done].
  - intros a d Hd. simpl in Hd. by rewrite lookup_empty in Hd.
Qed.

(** The shape of the entries the scanner thread writes. *)
Lemma background_scanner_entry its a d :
  devices (background_scanner its initial_registry) !! a = Some d →
  StronglySorted Z.lt (open_ports d)
  ∧ vulns d = vulns_of (open_ports d)
  ∧ NoDup (open_ports d).
Proof.
  revert a d.
  apply (background_scanner_entries
           (λ _ d, StronglySorted Z.lt (open_ports d)
                   ∧ vulns d = vulns_of (open_ports d)
                   ∧ NoDup (open_ports d))).
  - intros now h old _. simpl. unfold probe_open_ports.
    split; [apply StronglySorted_lt_sorted_set|].
    split; [done | apply NoDup_sorted_set].
  - intros a d Hd. simpl in Hd. by rewrite lookup_empty in Hd.
Qed.

(** X2. In every registry the scanner thread produces, the port list of each
    device is strictly ascending (so it has no duplicates), and the findings
    of the device are exactly those of its port list. *)
Theorem registry_ports_ascending_findings_match its :
  let devs := devices (background_scanner its initial_registry) in
  ports_ascending devs ∧ findings_match devs ∧ ports_nodup devs.
Proof.
  cbv zeta.
  repeat split; intros a d Hd; by apply (background_scanner_entry its a d Hd).
Qed.

Lemma last_slice_last_snoc {A} n (l : list A) x :
  (0 < n)%nat → last (slice_last n (l ++ [x])) = Some x.
Proof.
  intros Hn. unfold slice_last. rewrite length_app. simpl.
  rewrite drop_app_le by lia. apply last_snoc.
Qed.

Lemma scan_once_history_tracks c st :
  history_tracks_devices st → history_tracks_devices (scan_once c st).
Proof.
  intros Hst. destruct c as [cidr now [|hosts]]; [done|].
  unfold history_tracks_devices.
  pose proof (scan_once_history cidr now hosts st) as Hh. cbv zeta in Hh.
  rewrite Hh, last_slice_last_snoc by lia. done.
Qed.

Lemma scan_once_history_length c st :
  (length (device_count_history st) ≤ 200)%nat →
  (length (device_count_history (scan_once c st)) ≤ 200)%nat.
Proof.
  intros Hst. destruct c as [cidr now [|hosts]]; [done|].
  pose proof (scan_once_history cidr now hosts st) as Hh. cbv zeta in Hh.
  rewrite Hh, length_slice_last. lia.
Qed.

Lemma background_scanner_history its :
  let st := background_scanner its initial_registry in
  history_tracks_devices st
  ∧ (length (device_count_history st) ≤ 200)%nat.
Proof.
  cbv zeta. induction its as [|it its [IH1 IH2]] using rev_ind.
  - split; [done | simpl; lia].
  - rewrite background_scanner_snoc. destruct it as [|c]; [done|].
    split; [by apply scan_once_history_tracks
           | by apply scan_once_history_length].
Qed.

(** The critical sections of the host loop only add or rewrite entries. *)
Lemma merge_hosts_size now l st :
  (size (devices st) ≤ size (devices (merge_hosts now l st)))%nat.
Proof.
  induction l as [|h l IH] using rev_ind; [done|].
  rewrite merge_hosts_snoc. unfold merge_host. cbn [devices].
  rewrite map_size_insert.
  destruct (devices (merge_hosts now l st) !! hp_host h); simpl; lia.
Qed.

(** X3. After every completed pass of the scanner loop, failed passes
    included, the newest history sample is the number of devices (and as
    long as there is no sample the registry is empty). While a pass is in
    progress, after the critical sections of any of its hosts and before its
    last one, the history is still the one the last completed pass left: its
    newest sample is the device count of that moment, which is at most the
    current one. At all these points the history holds at most 200
    samples. *)
Theorem registry_history_tracks_devices its now l :
  let st0 := background_scanner its initial_registry in
  let st := merge_hosts now l st0 in
  match last (device_count_history st0) with
  | Some n => n = Z.of_nat (size (devices st0))
  | None => devices st0 = ∅
  end
  ∧ device_count_history st = device_count_history st0
  ∧ match last (device_count_history st) with
    | Some n => n = Z.of_nat (size (devices st0))
                ∧ n ≤ Z.of_nat (size (devices st))
    | None => devices st0 = ∅
    end
  ∧ (length (device_count_history st0) ≤ 200)%nat
  ∧ (length (device_count_history st) ≤ 200)%nat.
Proof.
  cbv zeta. destruct (background_scanner_history its) as [Hh Hlen].
  unfold history_tracks_devices in Hh.
  destruct (merge_hosts_history now l
              (background_scanner its initial_registry)) as [Hsame _].
  pose proof (merge_hosts_size now l
                (background_scanner its initial_registry)) as Hsize.
  rewrite Hsame. split; [done|]. split; [done|]. split; [|done].
  destruct (last (device_count_history _)); [|done].
  split; [done | lia].
Qed.

(** ** Findings of a device *)

Lemma length_finding_of p :
  length (finding_of p) = if decide (is_Some (VULN_HINTS !! p)) then 1%nat else 0%nat.
Proof.
  unfold finding_of. destruct (VULN_HINTS !! p) as [[sev msg]|] eqn:E.
  - by rewrite decide_True by eauto.
  - rewrite decide_False; [done|]. by intros [? ?].
Qed.

Lemma length_vulns_of ports :
  length (vulns_of ports)
  = length (filter (λ p, is_Some (VULN_HINTS !! p)) ports).
Proof.
  rewrite vulns_of_bind. induction ports as [|p ports IH]; [done|].
  cbn [mbind list_bind]. rewrite length_app, filter_cons, length_finding_of.
  change (mbind finding_of ports) with (ports ≫= finding_of).
  rewrite IH. by case_decide.
Qed.

Lemma NoDup_vulns_of ports : NoDup ports → NoDup (vulns_of ports).
Proof.
  rewrite vulns_of_bind. induction 1 as [|p ports Hp Hnd IH]; [constructor|].
  cbn [mbind list_bind]. apply NoDup_app. split; [|split; [|done]].
  - unfold finding_of. destruct (VULN_HINTS !! p) as [[sev msg]|];
      [apply NoDup_singleton | constructor].
  - intros s Hs Hin. apply list_elem_of_bind in Hin as (q & Hsq & Hq).
    assert (p = q) as -> by eauto using finding_of_inj. done.
Qed.

Lemma length_table_ports ports :
  NoDup ports →
  (length (filter (λ p, is_Some (VULN_HINTS !! p)) ports)
   ≤ length VULN_HINTS_items)%nat.
Proof.
  intros Hnd. rewrite <- (length_fmap fst VULN_HINTS_items).
  apply submseteq_length, NoDup_submseteq; [by apply NoDup_filter|].
  intros p Hp. apply list_elem_of_filter in Hp as [[v Hv] _].
  apply VULN_HINTS_lookup_Some in Hv. apply list_elem_of_fmap. by exists (p, v).
Qed.

(** X4. In every registry the scanner thread produces, a device has one
    finding for each of its open ports that [VULN_HINTS] knows and none
    besides: no finding occurs twice, and there are at most seven. *)
Theorem registry_findings_bounded its a d :
  devices (background_scanner its initial_registry) !! a = Some d →
  NoDup (vulns d)
  ∧ length (vulns d)
    = length (filter (λ p, is_Some (VULN_HINTS !! p)) (open_ports d))
  ∧ (length (vulns d) ≤ 7)%nat.
Proof.
  intros Hd.
  destruct (background_scanner_entry its a d Hd) as (_ & Hf & Hp).
  rewrite Hf.
  split; [by apply NoDup_vulns_of|]. split; [apply length_vulns_of|].
  rewrite length_vulns_of. by apply length_table_ports.
Qed.

Lemma registry_findings_bounded_witness :
  let d := Device "192.168.1.10" (Some "AA:BB:CC:00:11:22") (Some "Acme")
                  [23; 80] (vulns_of [23; 80]) 0 in
  NoDup (vulns d) ∧ length (vulns d) = 2%nat ∧ (length (vulns d) ≤ 7)%nat.
Proof.
  apply (registry_findings_bounded [Ran (cycle_at 0 [camera])]
           "192.168.1.10"). reflexivity.
Defined.

(** ** More on the summary *)

Lemma or_unknown_spec o :
  or_unknown o ≠ ""
  ∧ (or_unknown o = "Unknown" ∨ o = Some (or_unknown o)).
Proof.
  unfold or_unknown, truthy. destruct o as [s|]; simpl; [|by split; [|left]].
  destruct (String.eqb s "") eqn:E; simpl; [by split; [|left]|].
  apply String.eqb_neq in E. split; [done | by right].
Qed.

(** X5. The summary lists every registered device once and nothing else:
    the addresses of its rows are the keys of the registry, without
    repetition, and their number is [total]. A row shows the ports, findings
    and timestamp of the device at its address; its MAC and vendor are never
    empty: they are the stored value, or ["Unknown"]. *)
Theorem summary_rows_are_the_devices strftime st :
  let s := (api_summary strftime st).1 in
  Z.of_nat (length (rows s)) = total s
  ∧ NoDup (row_ip <$> rows s)
  ∧ (∀ a, a ∈ row_ip <$> rows s ↔ is_Some (devices st !! a))
  ∧ (∀ r, r ∈ rows s →
          ∃ d, devices st !! row_ip r = Some d
               ∧ row_open_ports r = open_ports d
               ∧ row_vulns r = vulns d
               ∧ row_last_seen r = strftime (last_seen d)
               ∧ row_mac r ≠ "" ∧ row_vendor r ≠ ""
               ∧ (row_mac r = "Unknown" ∨ mac d = Some (row_mac r))
               ∧ (row_vendor r = "Unknown" ∨ vendor d = Some (row_vendor r))).
Proof.
  cbv zeta. rewrite api_summary_unfold. cbv zeta. cbn [rows total].
  assert (Hips : row_ip <$> (row_of strftime <$> map_to_list (devices st))
                 = (map_to_list (devices st)).*1).
  { rewrite <- list_fmap_compose. by apply list_fmap_ext. }
  rewrite Hips. split; [|split; [|split]].
  - by rewrite length_fmap, length_map_to_list.
  - apply NoDup_fst_map_to_list.
  - intros a. rewrite list_elem_of_fmap. split.
    + intros ([a' d] & -> & Hin). apply elem_of_map_to_list in Hin. eauto.
    + intros [d Hd]. exists (a, d). split; [done|].
      by apply elem_of_map_to_list.
  - intros r Hr. apply list_elem_of_fmap in Hr as ([a d] & -> & Hin).
    apply elem_of_map_to_list in Hin. exists d. simpl.
    destruct (or_unknown_spec (mac d)) as [? ?].
    destruct (or_unknown_spec (vendor d)) as [? ?]. done.
Qed.

(** The tally of a port, for port lists without duplicates. *)
Lemma vuln_ports_lookup strftime st p :
  ports_nodup (devices st) →
  vuln_ports (api_summary strftime st).1 !! p
  = if decide (is_Some (VULN_HINTS !! p)
               ∧ devices_with_port p (devices st) ≠ [])
    then Some (Z.of_nat (length (devices_with_port p (devices st))))
    else None.
Proof.
  intros Hnd. rewrite api_summary_unfold. cbv zeta. cbn [vuln_ports].
  rewrite foldl_tally_port_lookup, lookup_empty. simpl.
  unfold devices_with_port. rewrite count_port_devices.
  - pose proof (elem_of_bind_ports p (map_to_list (devices st))) as Hb.
    repeat case_decide; try done; naive_solver.
  - intros [a d] Hin. apply elem_of_map_to_list in Hin. by eapply Hnd.
Qed.

Lemma length_filter_impl {A} (P Q : A → Prop)
    `{∀ x, Decision (P x)} `{∀ x, Decision (Q x)} (l : list A) :
  (∀ x, x ∈ l → P x → Q x) →
  (length (filter P l) ≤ length (filter Q l))%nat.
Proof.
  induction l as [|x l IH]; intros Hpq; [done|].
  rewrite !filter_cons.
  assert (IH' : (length (filter P l) ≤ length (filter Q l))%nat)
    by (apply IH; intros y Hy; apply Hpq; by right).
  destruct (decide (P x)) as [Hp|Hp].
  - rewrite (decide_True (P := Q x)) by (apply Hpq; [left | done]).
    simpl. lia.
  - case_decide; simpl; lia.
Qed.

(** With matching findings, a device is vulnerable exactly when one of its
    open ports is in the table. *)
Lemma vulnerable_iff_table_port d :
  vulns d = vulns_of (open_ports d) →
  vulns d ≠ [] ↔ ∃ p, p ∈ open_ports d ∧ is_Some (VULN_HINTS !! p).
Proof.
  intros ->. split.
  - intros Hne. destruct (vulns_of (open_ports d)) as [|s k] eqn:E; [done|].
    assert (Hs : s ∈ vulns_of (open_ports d)) by (rewrite E; left).
    apply elem_of_vulns_of in Hs as (p & Hp & Hs). exists p. split; [done|].
    unfold finding_of in Hs. destruct (VULN_HINTS !! p); [eauto|].
    by apply elem_of_nil in Hs.
  - intros (p & Hp & [[sev msg] Hv]) Hnil.
    assert (Hs : finding sev msg ∈ vulns_of (open_ports d)).
    { apply elem_of_vulns_of. exists p. split; [done|].
      unfold finding_of. rewrite Hv. left. }
    rewrite Hnil in Hs. by apply elem_of_nil in Hs.
Qed.

(** X6. For every registry the scanner thread produces, the counts of the
    summary agree with its port tally: no device is counted vulnerable
    exactly when the tally is empty, and each tallied port has between one
    and [vulnerable] devices; [vulnerable] is at most [total], so [safe] is
    never negative. *)
Theorem summary_tally_agrees_with_counts strftime its :
  let st := background_scanner its initial_registry in
  let s := (api_summary strftime st).1 in
  (vulnerable s = 0 ↔ vuln_ports s = ∅)
  ∧ (∀ p n, vuln_ports s !! p = Some n → 1 ≤ n ≤ vulnerable s)
  ∧ 0 ≤ vulnerable s ≤ total s
  ∧ 0 ≤ safe s.
Proof.
  cbv zeta. set (st := background_scanner its initial_registry).
  assert (Hnd : ports_nodup (devices st))
    by (intros a d Hd; by apply (background_scanner_entry its a d Hd)).
  assert (Hfm : ∀ a d, devices st !! a = Some d →
                       vulns d = vulns_of (open_ports d))
    by (intros a d Hd; by apply (background_scanner_entry its a d Hd)).
  assert (Htally : ∀ p n,
            vuln_ports (api_summary strftime st).1 !! p = Some n →
            1 ≤ n ≤ Z.of_nat (length (vulnerable_devices (devices st)))).
  { intros p n. rewrite vuln_ports_lookup by done.
    case_decide as Hp; [|done]. intros [= <-]. destruct Hp as [Hp Hne].
    split.
    - destruct (devices_with_port p (devices st)); [done | simpl; lia].
    - apply inj_le. apply length_filter_impl. intros [a d] Hin Hpd.
      apply elem_of_map_to_list in Hin. simpl in *.
      apply vulnerable_iff_table_port; eauto. }
  assert (Hv : vulnerable (api_summary strftime st).1
               = Z.of_nat (length (vulnerable_devices (devices st))))
    by (by rewrite api_summary_unfold).
  assert (Ht : total (api_summary strftime st).1
               = Z.of_nat (size (devices st)))
    by (by rewrite api_summary_unfold).
  assert (Hs : safe (api_summary strftime st).1
               = total (api_summary strftime st).1
                 - vulnerable (api_summary strftime st).1)
    by (by rewrite api_summary_unfold).
  pose proof (vulnerable_plus_safe (devices st)) as Hsum.
  rewrite Hs, Ht, Hv. split; [|split; [|split]]; [|done|lia|lia].
  split.
  - intros H0. apply map_empty. intros p.
    destruct (vuln_ports (api_summary strftime st).1 !! p) as [n|] eqn:E;
      [|done].
    apply Htally in E. lia.
  - intros Hempty.
    destruct (vulnerable_devices (devices st)) as [|[a d] k] eqn:E; [done|].
    exfalso.
    assert (Hin : (a, d) ∈ vulnerable_devices (devices st))
      by (rewrite E; left).
    apply list_elem_of_filter in Hin as [Hne Hin]. simpl in Hne.
    apply elem_of_map_to_list in Hin.
    apply (vulnerable_iff_table_port d (Hfm a d Hin)) in Hne
      as (p & Hp & Htab).
    pose proof (vuln_ports_lookup strftime st p Hnd) as Hl.
    rewrite Hempty, lookup_empty in Hl.
    rewrite decide_True in Hl; [done|]. split; [done|].
    intros Hnil.
    assert (Hin' : (a, d) ∈ devices_with_port p (devices st)).
    { apply list_elem_of_filter. split; [done|].
      by apply elem_of_map_to_list. }
    rewrite Hnil in Hin'. by apply elem_of_nil in Hin'.
Qed.

Lemma last_slice_last {A} n (l : list A) :
  (0 < n)%nat → last (slice_last n l) = last l.
Proof.
  intros Hn. destruct l as [|x l] using rev_ind; [done|].
  by rewrite last_slice_last_snoc, last_snoc.
Qed.

(** X7. A summary served between two passes of the scanner loop ends its
    history with the [total] it shows; its history is empty only while no
    sweep has succeeded, and then [total] is 0 and there is no row. A summary
    served while a pass is in progress, after the critical sections of any
    of its hosts and before its last one, shows the same history: it ends
    with the [total] of the last completed pass, which is at most the
    [total] shown now. *)
Theorem summary_history_ends_with_total strftime its now l :
  let st0 := background_scanner its initial_registry in
  let s0 := (api_summary strftime st0).1 in
  let s := (api_summary strftime (merge_hosts now l st0)).1 in
  match last (history s0) with
  | Some n => n = total s0
  | None => total s0 = 0 ∧ rows s0 = []
  end
  ∧ history s = history s0
  ∧ total s0 ≤ total s
  ∧ match last (history s) with
    | Some n => n = total s0 ∧ n ≤ total s
    | None => total s0 = 0
    end.
Proof.
  cbv zeta. rewrite !api_summary_unfold. cbv zeta. cbn [history total rows].
  destruct (merge_hosts_history now l
              (background_scanner its initial_registry)) as [Hsame _].
  pose proof (merge_hosts_size now l
                (background_scanner its initial_registry)) as Hsize.
  rewrite Hsame, last_slice_last by lia.
  destruct (background_scanner_history its) as [Hh _].
  unfold history_tracks_devices in Hh.
  destruct (last (device_count_history _)).
  - split; [done|]. split; [done|]. split; lia.
  - rewrite Hh, map_to_list_empty, map_size_empty. simpl.
    split; [done|]. split; [done|]. split; [lia | done].
Qed.

(** ** What a cycle does to the registry, address by address *)

Lemma merge_hosts_lookup now l st a :
  devices (merge_hosts now l st) !! a
  = merge_probes now (filter (λ h, hp_host h = a) l) (devices st !! a).
Proof.
  unfold merge_probes. induction l as [|h l IH] using rev_ind; [done|].
  rewrite merge_hosts_snoc, merge_host_lookup, filter_app, filter_cons.
  case_decide as Ha.
  - rewrite filter_nil, foldl_app. simpl. by rewrite <- IH.
  - by rewrite filter_nil, app_nil_r.
Qed.

(** The entry of an address after a cycle whose sweep succeeds. *)
Lemma scan_once_lookup cidr now hosts st a :
  devices (scan_once (Cycle cidr now (Sweep hosts)) st) !! a
  = match merge_probes now (filter (λ h, hp_host h = a) (live_hosts hosts))
                       (devices st !! a) with
    | Some d => if decide (stale now (seen_in hosts) (a, d)) then None else Some d
    | None => None
    end.
Proof. by rewrite scan_once_sweep, finish_cycle_lookup, merge_hosts_lookup. Qed.

Lemma not_seen_no_probe a hosts :
  a ∉ seen_in hosts ↔ filter (λ h, hp_host h = a) (live_hosts hosts) = [].
Proof.
  rewrite elem_of_seen_in. unfold last_probe.
  destruct (filter _ (live_hosts hosts)) as [|x l] using rev_ind.
  - split; [done | by intros _ [? ?]].
  - rewrite last_snoc. split; [intros H; exfalso; apply H; eauto|].
    intros H. by destruct l.
Qed.

(** X8. A cycle whose sweep succeeds touches only the hosts it saw up. Every
    such host is registered afterwards, no other address is added, the entry
    of an address it did not see is left exactly as it was or removed, and
    the device count grows by at most the number of hosts seen. *)
Theorem cycle_touches_only_seen_hosts cidr now hosts st :
  let st' := scan_once (Cycle cidr now (Sweep hosts)) st in
  seen_in hosts ⊆ dom (devices st')
  ∧ dom (devices st') ⊆ dom (devices st) ∪ seen_in hosts
  ∧ (∀ a d, a ∉ seen_in hosts →
            devices st' !! a = Some d → devices st !! a = Some d)
  ∧ (size (devices st') ≤ size (devices st) + size (seen_in hosts))%nat.
Proof.
  cbv zeta.
  assert (Hframe : ∀ a d, a ∉ seen_in hosts →
            devices (scan_once (Cycle cidr now (Sweep hosts)) st) !! a = Some d →
            devices st !! a = Some d).
  { intros a d Hns. rewrite scan_once_lookup_unseen by done.
    destruct (devices st !! a) as [d0|]; [|done]. by case_decide. }
  assert (Hsub : dom (devices (scan_once (Cycle cidr now (Sweep hosts)) st))
                 ⊆ dom (devices st) ∪ seen_in hosts).
  { intros a Ha. apply elem_of_dom in Ha as [d Hd].
    destruct (decide (a ∈ seen_in hosts)) as [?|Hns]; [set_solver|].
    apply elem_of_union_l, elem_of_dom. eauto. }
  split; [|split; [done|split; [done|]]].
  - intros a Ha. apply elem_of_seen_in in Ha as [h Hh].
    destruct (scan_once_lookup_seen cidr now hosts st a h Hh) as [old Ho].
    apply elem_of_dom. eauto.
  - rewrite <- !size_dom. etrans; [by apply subseteq_size|].
    rewrite size_union_alt.
    assert (size (seen_in hosts ∖ dom (devices st)) ≤ size (seen_in hosts))%nat
      by (apply subseteq_size; set_solver).
    lia.
Qed.

(** X9. A host that is not registered (never seen, or evicted) and is seen
    up once in a sweep is registered with exactly what this cycle found: its
    address, the MAC and vendor read for it, its open ports and their
    findings, and the time of the cycle. Nothing of an earlier entry
    returns. *)
Theorem unregistered_host_is_registered_as_probed cidr now hosts st a h :
  devices st !! a = None →
  filter (λ h', hp_host h' = a) (live_hosts hosts) = [h] →
  devices (scan_once (Cycle cidr now (Sweep hosts)) st) !! a
  = Some (Device a (probe_mac h) (probe_vendor h) (probe_open_ports h)
                 (vulns_of (probe_open_ports h)) now).
Proof.
  intros Hnone Hf. rewrite scan_once_lookup, Hf, Hnone. simpl.
  assert (Ha : hp_host h = a).
  { assert (Hin : h ∈ filter (λ h', hp_host h' = a) (live_hosts hosts))
      by (rewrite Hf; left).
    by apply list_elem_of_filter in Hin as [? _]. }
  rewrite decide_False.
  - unfold merge_record. simpl. rewrite Ha.
    by rewrite !andb_negb_r.
  - intros [_ Hns]. simpl in Hns. apply Hns. apply elem_of_seen_in.
    unfold last_probe. rewrite Hf. simpl. eauto.
Qed.

Lemma unregistered_host_is_registered_as_probed_witness :
  let st := run_cycles [cycle_at 0 [camera]; cycle_at 60 []] initial_registry in
  devices st !! "192.168.1.10" = None
  ∧ devices (scan_once (cycle_at 75 [quiet_host; camera_web_only]) st)
      !! "192.168.1.10"
    = Some (Device "192.168.1.10" None None [80]
                   ["[MEDIUM] HTTP (80) — no TLS; prefer HTTPS."]
                   (75 * MICROS)).
Proof.
  split; [reflexivity|].
  apply (unregistered_host_is_registered_as_probed "192.168.1.0/24"
           (75 * MICROS) [quiet_host; camera_web_only]
           (run_cycles [cycle_at 0 [camera]; cycle_at 60 []] initial_registry)
           "192.168.1.10" camera_web_only); reflexivity.
Defined.

(** ** Repeating and reordering *)

Lemma merge_probes_snoc now l h old :
  merge_probes now (l ++ [h]) old
  = Some (merge_record now h (merge_probes now l old)).
Proof. unfold merge_probes. by rewrite foldl_app. Qed.

(** A record whose identity fields are already set wherever the probe has
    one keeps them. *)
Lemma merge_record_saturated now h r :
  (truthy (probe_mac h) = true → truthy (mac r) = true) →
  (truthy (probe_vendor h) = true → truthy (vendor r) = true) →
  merge_record now h (Some r)
  = Device (ip r) (mac r) (vendor r) (probe_open_ports h)
           (vulns_of (probe_open_ports h)) now.
Proof.
  intros Hm Hv. unfold merge_record. simpl.
  destruct (truthy (probe_mac h)); destruct (truthy (probe_vendor h));
    simpl; rewrite ?Hm, ?Hv by done; done.
Qed.

(** After the probes [l], the record has an identity field set wherever one
    of the probes had. *)
Lemma merge_probes_saturates now l old r :
  merge_probes now l old = Some r →
  ∀ h, h ∈ l →
       (truthy (probe_mac h) = true → truthy (mac r) = true)
       ∧ (truthy (probe_vendor h) = true → truthy (vendor r) = true).
Proof.
  revert r. induction l as [|x l IH] using rev_ind; intros r Hr h Hin.
  - by apply elem_of_nil in Hin.
  - rewrite merge_probes_snoc in Hr. injection Hr as <-.
    apply elem_of_app in Hin as [Hin|Hin].
    + destruct (merge_probes now l old) as [r'|] eqn:E.
      * destruct (IH r' eq_refl h Hin) as [Hm Hv].
        destruct (merge_record_sticky now x r') as [Hm' Hv'].
        split; intros Ht.
        -- rewrite (Hm' (Hm Ht)). by apply Hm.
        -- rewrite (Hv' (Hv Ht)). by apply Hv.
      * destruct l as [|y l] using rev_ind; [by apply elem_of_nil in Hin|].
        by rewrite merge_probes_snoc in E.
    + apply list_elem_of_singleton in Hin as ->.
      unfold merge_record. simpl.
      split; intros Ht; rewrite Ht; simpl.
      * destruct (truthy (mac (default _ (merge_probes now l old)))) eqn:E;
          simpl; done.
      * destruct (truthy (vendor (default _ (merge_probes now l old)))) eqn:E;
          simpl; done.
Qed.

(** Probing again what a record was built from only rewrites the fields of
    the last probe. *)
Lemma merge_probes_again now l h r :
  (∀ h', h' ∈ l ++ [h] →
         (truthy (probe_mac h') = true → truthy (mac r) = true)
         ∧ (truthy (probe_vendor h') = true → truthy (vendor r) = true)) →
  merge_probes now (l ++ [h]) (Some r)
  = Some (Device (ip r) (mac r) (vendor r) (probe_open_ports h)
                 (vulns_of (probe_open_ports h)) now).
Proof.
  revert r. induction l as [|x l IH]; intros r Hsat.
  - simpl. f_equal. apply merge_record_saturated; apply Hsat; left.
  - change (merge_probes now ((x :: l) ++ [h]) (Some r))
      with (merge_probes now (l ++ [h]) (Some (merge_record now x (Some r)))).
    rewrite merge_record_saturated by (apply Hsat; left).
    rewrite IH; [done|]. intros h' Hin. simpl. apply Hsat. by right.
Qed.

(** X10. Running a cycle again at once, with the same time and the same
    answers of the scanner, changes no device and not the network range:
    only the history gets one more sample, with the same count. *)
Theorem repeated_cycle_changes_no_device c st :
  let st1 := scan_once c st in
  let st2 := scan_once c st1 in
  devices st2 = devices st1
  ∧ network_cidr st2 = network_cidr st1
  ∧ (cy_sweep c ≠ SweepRaised →
     device_count_history st2
     = slice_last 200 (device_count_history st1
                         ++ [Z.of_nat (size (devices st1))])).
Proof.
  cbv zeta. destruct c as [cidr now [|hosts]]; [done|].
  assert (Hdev : devices (scan_once (Cycle cidr now (Sweep hosts))
                            (scan_once (Cycle cidr now (Sweep hosts)) st))
                 = devices (scan_once (Cycle cidr now (Sweep hosts)) st)).
  { apply map_eq. intros a. rewrite (scan_once_lookup cidr now hosts _ a).
    rewrite (scan_once_lookup cidr now hosts st a).
    destruct (filter (λ h, hp_host h = a) (live_hosts hosts)) as [|h l] eqn:El
      using rev_ind.
    - simpl. apply not_seen_no_probe in El.
      destruct (devices st !! a) as [d|]; [|done].
      destruct (decide (stale now (seen_in hosts) (a, d))) as [Hs|Hs];
        [done|]. simpl. by rewrite decide_False.
    - clear IHl.
      assert (Hseen : a ∈ seen_in hosts).
      { apply elem_of_seen_in. unfold last_probe. rewrite El, last_snoc.
        eauto. }
      assert (Hfresh : ∀ d, ¬ stale now (seen_in hosts) (a, d))
        by (intros d [_ Hns]; by apply Hns).
      rewrite (merge_probes_snoc now l h (devices st !! a)).
      set (r1 := merge_record now h (merge_probes now l (devices st !! a))).
      rewrite (decide_False (P := stale _ _ (a, r1))) by apply Hfresh.
      rewrite merge_probes_again.
      + rewrite decide_False by apply Hfresh. done.
      + apply (merge_probes_saturates now (l ++ [h]) (devices st !! a)).
        by rewrite merge_probes_snoc. }
  split; [done|]. split; [by rewrite !scan_once_sweep|].
  intros _.
  pose proof (scan_once_history cidr now hosts
                (scan_once (Cycle cidr now (Sweep hosts)) st)) as Hh.
  cbv zeta in Hh. unfold sample_of in Hh. by rewrite Hdev in Hh.
Qed.

Lemma repeated_cycle_changes_no_device_witness :
  let c := cycle_at 15 [quiet_host; camera_web_only] in
  let st1 := scan_once c (scan_once (cycle_at 0 [camera]) initial_registry) in
  device_count_history (scan_once c st1) = [1; 2; 2].
Proof.
  destruct (repeated_cycle_changes_no_device
              (cycle_at 15 [quiet_host; camera_web_only])
              (scan_once (cycle_at 0 [camera]) initial_registry))
    as (_ & _ & Hh).
  cbv zeta. rewrite Hh; [reflexivity | discriminate].
Defined.

Lemma registry_eq (st1 st2 : registry) :
  devices st1 = devices st2 →
  device_count_history st1 = device_count_history st2 →
  network_cidr st1 = network_cidr st2 →
  st1 = st2.
Proof. destruct st1, st2. simpl. by intros -> -> ->. Qed.

(** X11. When the sweep lists every live host once, what a cycle leaves
    does not depend on the order in which the hosts are processed, as far as
    the entries go: each address has the same record, the history and the
    network range are the same, and a summary has the same counts, the same
    tally, the same history and the same rows up to their order. (The order
    in which the dict lists the devices, and with it the order of the rows,
    follows the processing order and is not part of the statement.) *)
Theorem cycle_entries_ignore_host_order cidr now hosts hosts' st :
  hosts ≡ₚ hosts' →
  NoDup (hp_host <$> live_hosts hosts) →
  let st1 := scan_once (Cycle cidr now (Sweep hosts)) st in
  let st2 := scan_once (Cycle cidr now (Sweep hosts')) st in
  (∀ a, devices st1 !! a = devices st2 !! a)
  ∧ device_count_history st1 = device_count_history st2
  ∧ network_cidr st1 = network_cidr st2
  ∧ ∀ strftime,
      let s1 := (api_summary strftime st1).1 in
      let s2 := (api_summary strftime st2).1 in
      total s1 = total s2 ∧ safe s1 = safe s2
      ∧ vulnerable s1 = vulnerable s2
      ∧ (∀ p, vuln_ports s1 !! p = vuln_ports s2 !! p)
      ∧ history s1 = history s2
      ∧ rows s1 ≡ₚ rows s2.
Proof.
  intros Hperm Hnd.
  assert (Hlive : live_hosts hosts ≡ₚ live_hosts hosts')
    by (unfold live_hosts; by rewrite Hperm).
  assert (Hseen : seen_in hosts = seen_in hosts').
  { unfold seen_in. apply set_eq. intros a.
    rewrite !elem_of_list_to_set. by rewrite Hlive. }
  assert (Hone : ∀ a, filter (λ h, hp_host h = a) (live_hosts hosts)
                      = filter (λ h, hp_host h = a) (live_hosts hosts')).
  { intros a.
    assert (Hp : filter (λ h, hp_host h = a) (live_hosts hosts)
                 ≡ₚ filter (λ h, hp_host h = a) (live_hosts hosts'))
      by (by rewrite Hlive).
    destruct (filter (λ h, hp_host h = a) (live_hosts hosts))
      as [|x [|y k]] eqn:E.
    - by apply Permutation_nil_l in Hp.
    - by apply Permutation_singleton_l in Hp.
    - exfalso.
      assert (Hnd' : NoDup (hp_host <$> filter (λ h, hp_host h = a)
                                          (live_hosts hosts))).
      { clear -Hnd. induction (live_hosts hosts) as [|z l IH]; [constructor|].
        rewrite fmap_cons in Hnd. apply NoDup_cons in Hnd as [Hz Hnd].
        rewrite filter_cons. case_decide; [|by apply IH].
        rewrite fmap_cons. apply NoDup_cons. split; [|by apply IH].
        intros Hin. apply Hz. apply list_elem_of_fmap in Hin as (w & -> & Hw).
        apply list_elem_of_filter in Hw as [_ Hw].
        by apply list_elem_of_fmap_2. }
      rewrite E in Hnd'.
      assert (Hx : x ∈ filter (λ h, hp_host h = a) (live_hosts hosts))
        by (rewrite E; left).
      assert (Hy : y ∈ filter (λ h, hp_host h = a) (live_hosts hosts))
        by (rewrite E; right; left).
      apply list_elem_of_filter in Hx as [Hx _].
      apply list_elem_of_filter in Hy as [Hy _].
      rewrite !fmap_cons, Hx, Hy in Hnd'.
      apply NoDup_cons in Hnd' as [Hn _]. apply Hn. left. }
  assert (Hdev : devices (scan_once (Cycle cidr now (Sweep hosts)) st)
                 = devices (scan_once (Cycle cidr now (Sweep hosts')) st)).
  { apply map_eq. intros a. by rewrite !scan_once_lookup, Hone, Hseen. }
  assert (Heq : scan_once (Cycle cidr now (Sweep hosts)) st
                = scan_once (Cycle cidr now (Sweep hosts')) st).
  { apply registry_eq; [done| |by rewrite !scan_once_sweep].
    rewrite (scan_once_history cidr now hosts st).
    rewrite (scan_once_history cidr now hosts' st). unfold sample_of.
    by rewrite Hdev. }
  cbv zeta. rewrite Heq. repeat split; done.
Qed.

Lemma cycle_entries_ignore_host_order_witness :
  let st1 := scan_once (cycle_at 0 [camera; quiet_host]) initial_registry in
  let st2 := scan_once (cycle_at 0 [quiet_host; camera]) initial_registry in
  (∀ a, devices st1 !! a = devices st2 !! a)
  ∧ device_count_history st1 = device_count_history st2.
Proof.
  destruct (cycle_entries_ignore_host_order "192.168.1.0/24" (0 * MICROS)
              [camera; quiet_host] [quiet_host; camera] initial_registry)
    as (Hd & Hh & _).
  - apply Permutation_swap.
  - apply (bool_decide_unpack _). by vm_compute.
  - split; [exact Hd | exact Hh].
Defined.

(** ** The network range *)

Lemma scan_once_network c st :
  network_cidr (scan_once c st)
  = match cy_sweep c with
    | SweepRaised => network_cidr st
    | Sweep _ => cy_cidr c
    end.
Proof.
  destruct c as [cidr now [|hosts]]; [done|]. by rewrite scan_once_sweep.
Qed.

(** Where the result of [get_local_network] comes from. *)
Lemma get_local_network_cases os :
  get_local_network os = FALLBACK_NETWORK
  ∨ ∃ iface ip_ netmask,
      gateways os = DefaultIface iface
      ∧ ifaddresses os iface = Addrs (Some ip_) (Some netmask)
      ∧ ip_ ≠ "" ∧ netmask ≠ ""
      ∧ ipv4network os (String.append ip_ (String.append "/" netmask))
        = Some (get_local_network os).
Proof.
  unfold get_local_network.
  destruct (gateways os) as [| | | |iface] eqn:Eg; try by left.
  destruct (ifaddresses os iface) as [|[ip_|] [netmask|]] eqn:Ei;
    try by left.
  - unfold truthy.
    destruct (String.eqb ip_ "") eqn:E1; [by left|].
    destruct (String.eqb netmask "") eqn:E2; [by left|]. simpl.
    destruct (ipv4network os _) as [r|] eqn:Er; [|by left].
    right. exists iface, ip_, netmask.
    apply String.eqb_neq in E1, E2. done.
  - unfold truthy. destruct (String.eqb ip_ ""); by left.
Qed.

(** X12. The network range of the registry is the one [get_local_network]
    found at the last pass whose sweep succeeded, and the initial
    ["0.0.0.0/0"] before any: a pass whose sweep raises keeps the range of
    an earlier pass. The range is thus ["0.0.0.0/0"], the fallback
    ["192.168.1.0/24"], or what [IPv4Network] made of a non-empty address and
    netmask of the default interface. *)
Theorem network_is_last_swept_range inputs :
  let st := run_cycles (cycle_of <$> inputs) initial_registry in
  network_cidr st
  = match last (filter (λ i, swept i = true) inputs) with
    | Some i => get_local_network (pi_os i)
    | None => "0.0.0.0/0"
    end
  ∧ (network_cidr st = "0.0.0.0/0"
     ∨ network_cidr st = FALLBACK_NETWORK
     ∨ ∃ i iface ip_ netmask,
         i ∈ inputs
         ∧ gateways (pi_os i) = DefaultIface iface
         ∧ ifaddresses (pi_os i) iface = Addrs (Some ip_) (Some netmask)
         ∧ ip_ ≠ "" ∧ netmask ≠ ""
         ∧ ipv4network (pi_os i) (String.append ip_ (String.append "/" netmask))
           = Some (network_cidr st)).
Proof.
  cbv zeta.
  assert (Hlast : network_cidr (run_cycles (cycle_of <$> inputs) initial_registry)
                  = match last (filter (λ i, swept i = true) inputs) with
                    | Some i => get_local_network (pi_os i)
                    | None => "0.0.0.0/0"
                    end).
  { induction inputs as [|i inputs IH] using rev_ind; [done|].
    rewrite fmap_app, run_cycles_app, filter_app. simpl.
    rewrite scan_once_network, filter_cons. simpl.
    destruct (decide (swept i = true)) as [Hs|Hs]; unfold swept in Hs;
      destruct (pi_sweep i) as [|hosts]; try done.
    - by rewrite filter_nil, last_snoc.
    - by rewrite filter_nil, app_nil_r. }
  split; [done|]. rewrite Hlast.
  destruct (last (filter (λ i, swept i = true) inputs)) as [i|] eqn:El;
    [|by left].
  apply last_Some_elem_of, list_elem_of_filter in El as [_ Hin].
  destruct (get_local_network_cases (pi_os i))
    as [->|(iface & ip_ & netmask & ?)]; [by right; left|].
  right; right. exists i, iface, ip_, netmask. naive_solver.
Qed.

(** ** Sessions and protected views *)

Lemma run_events_snoc strftime U P es e state :
  run_events strftime U P (es ++ [e]) state
  = step strftime U P e (run_events strftime U P es state).
Proof. unfold run_events. by rewrite foldl_app. Qed.

(** What an event does to the session: only a login that the credentials
    let through sets it, only a logout clears it. *)
Lemma step_authed strftime U P e state :
  session_authed (step strftime U P e state).1
  = good_login U P e || (negb (is_logout e) && session_authed state.1).
Proof.
  destruct state as [session st]. destruct e as [ep rq|it]; [|done].
  destruct ep; simpl.
  - unfold root. by destruct (session_authed session) eqn:E.
  - unfold login. destruct (String.eqb (rq_method rq) "POST"); [|done].
    simpl.
    destruct (String.eqb (default "" (rq_form rq !! "username")) U); [|done].
    destruct (String.eqb (default "" (rq_form rq !! "password")) P); [|done].
    simpl. unfold session_authed. by rewrite lookup_insert_eq.
  - done.
  - unfold dashboard, login_required.
    by destruct (session_authed session) eqn:E.
  - unfold api_summary_view, login_required.
    destruct (session_authed session) eqn:E; simpl; [|done].
    by destruct (api_summary strftime st).
Qed.

Lemma view_content strftime U P ep rq session st :
  is_content (view strftime U P ep rq session st).1.1
  = session_authed session
    && match ep with EpDashboard | EpApiSummary => true | _ => false end.
Proof.
  destruct ep; simpl.
  - unfold root. by destruct (session_authed session).
  - unfold login. rewrite andb_false_r.
    destruct (String.eqb (rq_method rq) "POST"); [|done].
    by destruct (_ && _).
  - by rewrite andb_false_r.
  - unfold dashboard, login_required. by destruct (session_authed session).
  - unfold api_summary_view, login_required.
    destruct (session_authed session); simpl; [|done].
    by destruct (api_summary strftime st).
Qed.

Lemma run_events_authed strftime U P es state :
  session_authed (run_events strftime U P es state).1 = true
  ↔ (session_authed state.1 = true ∧ Forall (λ e, is_logout e = false) es)
    ∨ ∃ es1 e es2,
        es = es1 ++ e :: es2
        ∧ good_login U P e = true
        ∧ Forall (λ e', is_logout e' = false) es2.
Proof.
  induction es as [|e es IH] using rev_ind.
  - split; [by left|]. intros [[? _]|(es1 & e & es2 & Hes & _)]; [done|].
    by destruct es1.
  - rewrite run_events_snoc, step_authed. split.
    + intros Ha. apply orb_true_iff in Ha as [Hg|Ha].
      * right. exists es, e, []. by split; [|split; [|constructor]].
      * apply andb_true_iff in Ha as [Hl Ha]. apply negb_true_iff in Hl.
        apply IH in Ha as [[Ha Hall]|(es1 & g & es2 & -> & Hg & Hall)].
        -- left. split; [done|]. apply Forall_app. by split; [|constructor].
        -- right. exists es1, g, (es2 ++ [e]). rewrite <- app_assoc.
           split; [done|]. split; [done|].
           apply Forall_app. by split; [|constructor].
    + intros [[Ha Hall]|(es1 & g & es2 & Hes & Hg & Hall)].
      * apply Forall_app in Hall as [Hall He].
        rewrite Forall_singleton in He. rewrite He. simpl.
        apply orb_true_iff. right. apply IH. by left.
      * destruct es2 as [|x es2] using rev_ind.
        -- apply app_inj_tail in Hes as [-> ->]. by rewrite Hg.
        -- clear IHes2. rewrite app_comm_cons, app_assoc in Hes.
           apply app_inj_tail in Hes as [-> ->].
           apply Forall_app in Hall as [Hall He].
           rewrite Forall_singleton in He. rewrite He. simpl.
           apply orb_true_iff. right. apply IH. right. eauto 10.
Qed.

(** X13. A client whose session is not authenticated gets the dashboard or
    a summary only after a POST to [login] with exactly the configured user
    name and password, and with no logout since; whatever the scanner thread
    does in between makes no difference. Conversely, after such a login and
    until the next logout the two protected views answer with their
    content, and before it they redirect to the login page with the path of
    the request as [next]. *)
Theorem content_requires_login strftime DASH_USER DASH_PASS es ep rq session st :
  session_authed session = false →
  let state := run_events strftime DASH_USER DASH_PASS es (session, st) in
  let r := (view strftime DASH_USER DASH_PASS ep rq state.1 state.2).1.1 in
  let logged_in :=
    ∃ es1 e es2,
      es = es1 ++ e :: es2
      ∧ good_login DASH_USER DASH_PASS e = true
      ∧ Forall (λ e', is_logout e' = false) es2 in
  (is_content r = true → logged_in)
  ∧ (ep = EpDashboard ∨ ep = EpApiSummary →
     (logged_in → is_content r = true)
     ∧ (¬ logged_in → r = Redirect (UrlFor "login" (Some (rq_path rq))))).
Proof.
  intros Hs0. cbv zeta. rewrite view_content.
  pose proof (run_events_authed strftime DASH_USER DASH_PASS es (session, st))
    as Hiff. simpl in Hiff. rewrite Hs0 in Hiff.
  split.
  - intros Hc. apply andb_true_iff in Hc as [Ha _].
    apply Hiff in Ha as [[? _]|?]; done.
  - intros Hep. split.
    + intros Hl. apply andb_true_iff. split; [apply Hiff; by right|].
      by destruct Hep as [-> | ->].
    + intros Hn.
      destruct (session_authed (run_events _ _ _ es (session, st)).1) eqn:Ea.
      * exfalso. apply Hn. destruct (proj1 Hiff eq_refl) as [[? _]|?]; done.
      * destruct Hep as [-> | ->]; simpl.
        -- unfold dashboard, login_required. by rewrite Ea.
        -- unfold api_summary_view, login_required. by rewrite Ea.
Qed.

Lemma content_requires_login_witness :
  let post := Request "POST" "/login"
                {["username" := "admin"; "password" := "admin123"]} ∅ in
  let get := Request "GET" "/api/summary" ∅ ∅ in
  let es := [Req EpLogin post; Pass (Ran (cycle_at 0 [camera]));
             Req EpRoot get] in
  let state := run_events (λ _, "1970-01-01 00:00:00") "admin" "admin123"
                          es (∅, initial_registry) in
  is_content (view (λ _, "1970-01-01 00:00:00") "admin" "admin123"
                   EpApiSummary get state.1 state.2).1.1 = true.
Proof.
  cbv zeta.
  destruct (content_requires_login (λ _, "1970-01-01 00:00:00")
              "admin" "admin123"
              [Req EpLogin (Request "POST" "/login"
                              {["username" := "admin";
                                "password" := "admin123"]} ∅);
               Pass (Ran (cycle_at 0 [camera]));
               Req EpRoot (Request "GET" "/api/summary" ∅ ∅)]
              EpApiSummary (Request "GET" "/api/summary" ∅ ∅)
              ∅ initial_registry) as [_ H]; [by vm_compute|].
  destruct (H (or_intror eq_refl)) as [Hin _]. apply Hin.
  eexists [], _, _. split; [reflexivity|]. split; [reflexivity|].
  repeat constructor.
Defined.

(** The views never write the registry. *)
Lemma view_registry strftime U P ep rq session st :
  (view strftime U P ep rq session st).2 = st.
Proof.
  destruct ep; simpl.
  - unfold root. by destruct (session_authed session).
  - unfold login. destruct (String.eqb (rq_method rq) "POST"); [|done].
    by destruct (_ && _).
  - done.
  - unfold dashboard, login_required. by destruct (session_authed session).
  - unfold api_summary_view, login_required.
    destruct (session_authed session); simpl; [|done].
    pose proof (api_summary_registry strftime st) as Hst.
    by destruct (api_summary strftime st).
Qed.

(** The views read of the registry only what the summary shows: the session
    they leave does not depend on it. *)
Lemma view_session strftime U P ep rq session st st' :
  (view strftime U P ep rq session st).1.2
  = (view strftime U P ep rq session st').1.2.
Proof.
  destruct ep; simpl; try done.
  - unfold root. by destruct (session_authed session).
  - unfold login. destruct (String.eqb (rq_method rq) "POST"); [|done].
    by destruct (_ && _).
  - unfold dashboard, login_required. by destruct (session_authed session).
  - unfold api_summary_view, login_required.
    destruct (session_authed session); simpl; [|done].
    by destruct (api_summary strftime st), (api_summary strftime st').
Qed.

(** X14. Requests and scanner passes do not interfere: after any events the
    registry is what the scanner passes alone would have left, whatever was
    requested (logged in or not), and the session is what the requests alone
    would have left, whatever the scanner found. *)
Theorem requests_and_passes_do_not_interfere
    strftime DASH_USER DASH_PASS es session st :
  let state := run_events strftime DASH_USER DASH_PASS es (session, st) in
  state.2 = background_scanner (passes_of es) st
  ∧ ∀ st',
      state.1
      = (run_events strftime DASH_USER DASH_PASS (requests_of es)
                    (session, st')).1.
Proof.
  cbv zeta. induction es as [|e es [IH1 IH2]] using rev_ind; [done|].
  rewrite run_events_snoc. unfold passes_of, requests_of.
  rewrite omap_app, filter_app. fold (passes_of es) (requests_of es).
  destruct (run_events strftime DASH_USER DASH_PASS es (session, st))
    as [sess1 st1] eqn:E1. simpl in IH1, IH2.
  destruct e as [ep rq|it].
  - cbn [step fst snd omap list_omap]. rewrite app_nil_r.
    pose proof (view_registry strftime DASH_USER DASH_PASS ep rq sess1 st1)
      as Hreg.
    rewrite filter_cons, decide_True, filter_nil by done.
    split.
    + destruct (view _ _ _ ep rq sess1 st1) as [[r s'] st''].
      simpl in *. by subst.
    + intros st'. rewrite run_events_snoc.
      destruct (run_events strftime DASH_USER DASH_PASS (requests_of es)
                  (session, st')) as [sess2 st2] eqn:E2.
      pose proof (IH2 st') as Hs. rewrite E2 in Hs. simpl in Hs. subst sess2.
      cbn [step fst snd].
      pose proof (view_session strftime DASH_USER DASH_PASS ep rq sess1 st1 st2)
        as Hsess.
      destruct (view _ _ _ ep rq sess1 st1) as [[r s'] st''].
      destruct (view _ _ _ ep rq sess1 st2) as [[r2 s2'] st2''].
      by simpl in *.
  - cbn [step fst snd omap list_omap].
    rewrite filter_cons, decide_False, filter_nil, app_nil_r by done.
    split; [|done]. by rewrite background_scanner_snoc, IH1.
Qed.

(** ** The port of the dashboard *)

Lemma choose_port_chosen fuel try_bind start p :
  choose_port fuel try_bind start = Some (Chosen p)
  ↔ start ≤ p
    ∧ try_bind p = Bound
    ∧ (∀ q, start ≤ q < p → try_bind q = BindOSError)
    ∧ (Z.to_nat (p - start) < fuel)%nat.
Proof.
  revert start. induction fuel as [|fuel IH]; intros start.
  - simpl. split; [done|]. intros (_ & _ & _ & ?). lia.
  - simpl. destruct (try_bind start) eqn:Es.
    + split.
      * intros [= <-]. split; [lia|]. split; [done|]. split; [|lia].
        intros q ?. lia.
      * intros (Hle & Hp & Hq & _).
        destruct (decide (p = start)) as [->|Hne]; [done|].
        rewrite Hq in Es by lia. done.
    + rewrite IH. split.
      * intros (Hle & Hp & Hq & Hf). split; [lia|]. split; [done|].
        split; [|lia]. intros q ?.
        destruct (decide (q = start)) as [->|?]; [done|]. apply Hq. lia.
      * intros (Hle & Hp & Hq & Hf).
        assert (p ≠ start) by (intros ->; congruence).
        split; [lia|]. split; [done|]. split; [|lia].
        intros q ?. apply Hq. lia.
    + split; [done|]. intros (Hle & Hp & Hq & _).
      destruct (decide (p = start)) as [->|Hne]; [congruence|].
      rewrite Hq in Es by lia. done.
Qed.

Lemma choose_port_none fuel try_bind start :
  choose_port fuel try_bind start = None
  ↔ ∀ q, start ≤ q < start + Z.of_nat fuel → try_bind q = BindOSError.
Proof.
  revert start. induction fuel as [|fuel IH]; intros start.
  - simpl. split; [|done]. intros _ q ?. lia.
  - simpl. destruct (try_bind start) eqn:Es.
    + split; [done|]. intros Hq. rewrite Hq in Es by lia. done.
    + rewrite IH. split.
      * intros Hq q ?. destruct (decide (q = start)) as [->|?]; [done|].
        apply Hq. lia.
      * intros Hq q ?. apply Hq. lia.
    + split; [done|]. intros Hq. rewrite Hq in Es by lia. done.
Qed.

(** X15. The start-up loop settles on the first port from 5000 upwards at
    which the bind succeeds, provided every port below it raised [OSError]:
    this is the port it returns, given enough passes to reach it. It is
    still searching after [fuel] passes exactly when all [fuel] ports from
    5000 raised [OSError]; it has no upper limit of its own. *)
Theorem dashboard_port_is_first_free try_bind fuel :
  (∀ p, choose_port fuel try_bind FIRST_PORT = Some (Chosen p)
        ↔ FIRST_PORT ≤ p
          ∧ try_bind p = Bound
          ∧ (∀ q, FIRST_PORT ≤ q < p → try_bind q = BindOSError)
          ∧ (Z.to_nat (p - FIRST_PORT) < fuel)%nat)
  ∧ (choose_port fuel try_bind FIRST_PORT = None
     ↔ ∀ q, FIRST_PORT ≤ q < FIRST_PORT + Z.of_nat fuel →
            try_bind q = BindOSError).
Proof.
  split; [intros p; apply choose_port_chosen | apply choose_port_none].
Qed.

Lemma dashboard_port_is_first_free_witness :
  choose_port 10 (λ q, if bool_decide (q < 5002) then BindOSError else Bound)
              FIRST_PORT
  = Some (Chosen 5002).
Proof.
  apply (dashboard_port_is_first_free
           (λ q, if bool_decide (q < 5002) then BindOSError else Bound) 10).
  split; [by vm_compute|]. split; [reflexivity|]. split; [|vm_compute; lia].
  intros q [_ Hq]. by rewrite bool_decide_true.
Defined.

(** ** Devices over many passes *)

(** X16. Over cycles that do not see an address, its entry is never
    modified: it stays exactly as it was until the first cycle whose sweep
    succeeds at a time that makes its timestamp stale, and from then on it
    is absent. A cycle whose sweep raises never removes it, however late. *)
Theorem unseen_device_is_kept_then_gone cs st a d :
  devices st !! a = Some d →
  Forall (λ c, a ∉ cycle_seen c) cs →
  devices (run_cycles cs st) !! a
  = if existsb (outdates d) cs then None else Some d.
Proof.
  intros Hd Hun.
  assert (Hnone : ∀ cs' st', Forall (λ c, a ∉ cycle_seen c) cs' →
            devices st' !! a = None →
            devices (run_cycles cs' st') !! a = None).
  { induction cs' as [|c cs' IH]; intros st' Hall Hn; [done|].
    apply Forall_cons in Hall as [Hc Hall]. rewrite run_cycles_cons.
    apply IH; [done|]. destruct c as [cidr now [|hosts]]; [done|].
    rewrite scan_once_lookup_unseen by done. by rewrite Hn. }
  revert st Hd. induction Hun as [|c cs Hc Hun IH]; intros st Hd; [done|].
  rewrite run_cycles_cons. cbn [existsb].
  destruct c as [cidr now [|hosts]].
  - by apply IH.
  - unfold outdates at 1. cbn [cy_sweep cy_now]. case_bool_decide as Hlt.
    + apply Hnone; [done|]. rewrite scan_once_lookup_unseen, Hd by done.
      by rewrite decide_True.
    + apply IH. rewrite scan_once_lookup_unseen, Hd by done.
      by rewrite decide_False.
Qed.

Lemma unseen_device_is_kept_then_gone_witness :
  let st := scan_once (cycle_at 0 [camera]) initial_registry in
  devices (run_cycles [cycle_at 45 [quiet_host]; failed_cycle_at 600] st)
    !! "192.168.1.10"
  = devices st !! "192.168.1.10"
  ∧ devices (run_cycles [failed_cycle_at 600; cycle_at 46 []; cycle_at 0 []] st)
      !! "192.168.1.10"
    = None.
Proof.
  cbv zeta. split.
  - rewrite (unseen_device_is_kept_then_gone
               [cycle_at 45 [quiet_host]; failed_cycle_at 600]
               (scan_once (cycle_at 0 [camera]) initial_registry)
               "192.168.1.10"
               (Device "192.168.1.10" (Some "AA:BB:CC:00:11:22") (Some "Acme")
                       [23; 80] (vulns_of [23; 80]) 0)); [reflexivity..|].
    repeat constructor; vm_compute; set_solver.
  - rewrite (unseen_device_is_kept_then_gone
               [failed_cycle_at 600; cycle_at 46 []; cycle_at 0 []]
               (scan_once (cycle_at 0 [camera]) initial_registry)
               "192.168.1.10"
               (Device "192.168.1.10" (Some "AA:BB:CC:00:11:22") (Some "Acme")
                       [23; 80] (vulns_of [23; 80]) 0)); [reflexivity..|].
    repeat constructor; vm_compute; set_solver.
Defined.

(** X17. In every registry the scanner thread produces, a device with a
    vendor has a MAC: a vendor is only ever looked up for, and stored with,
    a non-empty MAC. *)
Theorem registry_vendor_implies_mac its a d :
  devices (background_scanner its initial_registry) !! a = Some d →
  truthy (vendor d) = true → truthy (mac d) = true.
Proof.
  revert a d.
  apply (background_scanner_entries
           (λ _ d, truthy (vendor d) = true → truthy (mac d) = true)).
  - intros now h old Hold. unfold merge_record.
    assert (Hp : truthy (probe_vendor h) = true → truthy (probe_mac h) = true).
    { unfold probe_vendor. by destruct (truthy (probe_mac h)). }
    destruct old as [d|]; simpl.
    + specialize (Hold d eq_refl).
      destruct (truthy (probe_mac h)) eqn:Em;
        destruct (truthy (probe_vendor h)) eqn:Ev;
        destruct (truthy (mac d)) eqn:Emd;
        destruct (truthy (vendor d)) eqn:Evd; simpl;
        rewrite ?Em, ?Ev, ?Emd, ?Evd; auto.
    + destruct (truthy (probe_mac h)) eqn:Em;
        destruct (truthy (probe_vendor h)) eqn:Ev; simpl;
        rewrite ?Em, ?Ev; auto.
  - intros a d Hd. simpl in Hd. by rewrite lookup_empty in Hd.
Qed.

Lemma registry_vendor_implies_mac_witness :
  truthy (Some "AA:BB:CC:00:11:22") = true.
Proof.
  apply (registry_vendor_implies_mac
           [Ran (cycle_at 0 [camera]); RaisedEarly;
            Ran (cycle_at 15 [camera_web_only])]
           "192.168.1.10"
           (Device "192.168.1.10" (Some "AA:BB:CC:00:11:22") (Some "Acme")
                   [80] (vulns_of [80]) (15 * MICROS)));
    reflexivity.
Defined.

(** X18. Every entry of a registry the scanner thread produces records an
    observation: some pass saw the address up at the time the entry gives as
    [last_seen], and the open ports of the entry are those of the port scan
    of that pass. *)
Theorem registry_entries_are_observations its a d :
  devices (background_scanner its initial_registry) !! a = Some d →
  ∃ cidr now hosts h,
    Ran (Cycle cidr now (Sweep hosts)) ∈ its
    ∧ last_probe a hosts = Some h
    ∧ last_seen d = now
    ∧ open_ports d = probe_open_ports h.
Proof.
  revert d. induction its as [|it its IH] using rev_ind; intros d Hd.
  - simpl in Hd. by rewrite lookup_empty in Hd.
  - rewrite background_scanner_snoc in Hd.
    assert (Hold : devices (background_scanner its initial_registry) !! a
                   = Some d →
                   ∃ cidr now hosts h,
                     Ran (Cycle cidr now (Sweep hosts)) ∈ its ++ [it]
                     ∧ last_probe a hosts = Some h
                     ∧ last_seen d = now
                     ∧ open_ports d = probe_open_ports h).
    { intros Ho. destruct (IH d Ho) as (cidr & now & hosts & h & Hin & ?).
      exists cidr, now, hosts, h. split; [|done].
      apply elem_of_app. by left. }
    destruct it as [|[cidr now [|hosts]]]; [by apply Hold..|].
    simpl in Hd.
    destruct (scan_once_lookup_inv cidr now hosts _ a d Hd)
      as [[Hs Hnow]|(_ & Ho & _)]; [|by apply Hold].
    apply elem_of_seen_in in Hs as [h Hh].
    exists cidr, now, hosts, h. split; [apply elem_of_app; right; left|].
    split; [done|]. split; [done|].
    destruct (scan_once_lookup_seen cidr now hosts
                (background_scanner its initial_registry) a h Hh) as [old Ho].
    rewrite Ho in Hd. by injection Hd as <-.
Qed.

Lemma registry_entries_are_observations_witness :
  ∃ cidr now hosts h,
    Ran (Cycle cidr now (Sweep hosts))
      ∈ [Ran (cycle_at 0 [camera]); RaisedEarly;
         Ran (cycle_at 15 [camera_web_only])]
    ∧ last_probe "192.168.1.10" hosts = Some h
    ∧ 15 * MICROS = now
    ∧ [80] = probe_open_ports h.
Proof.
  apply (registry_entries_are_observations
           [Ran (cycle_at 0 [camera]); RaisedEarly;
            Ran (cycle_at 15 [camera_web_only])]
           "192.168.1.10"
           (Device "192.168.1.10" (Some "AA:BB:CC:00:11:22") (Some "Acme")
                   [80] (vulns_of [80]) (15 * MICROS))).
  reflexivity.
Defined.
